(** * SolarEnergyTradingFHE: settlement state machine

    A shallow embedding of [contracts/SolarEnergyTradingFHE.sol] and the
    properties of its encrypted-record lifecycle.

    Storage mappings are finite maps read with the Solidity default value;
    a [require] that fails, a failing library call or a run-time panic
    aborts the call, and an aborted call leaves the storage as it was.  The
    FHE library and the decryption oracle are not part of the contract: they
    are an interface ([FHECapability]) the whole development is generic in. *)

From stdpp Require Import gmap strings list fin_maps.
From Stdlib Require Import ZArith Lia.

Open Scope Z_scope.

(** ** Value types *)

(** [uint256] values are integers in [0, 2^256). *)
Definition uint256_max : Z := 2 ^ 256 - 1.

(** An [euint32] is an opaque 32-byte ciphertext handle; the handle whose
    bytes are all zero is what an unwritten storage slot reads as. *)
Abbreviation euint32 := Z (only parsing).
Abbreviation bytes := string (only parsing).

Definition uninitialized : euint32 := 0.

(** ** The external FHE capability

    What the contract imports from [@fhevm/solidity]: trivial encryption,
    homomorphic addition, the initialisation test, the verification of an
    oracle answer, plus [abi.decode] at type [string[]].  [FHE_plain] is the
    cleartext behind a handle; the contract never calls it, it is only used
    to say what the ciphertext operations mean.

    The library guards its operations with an access-control list.
    [FHE_isAllowed h] says that the contract holds a permission on the
    handle [h]; the contract grants itself none, so what it holds was given
    by the owners of the handles.  Nobody holds a permission on the
    all-zero handle.  Permissions are not withdrawn; a call made before one
    is given reverts and so leaves no trace in the storage. *)
Class FHECapability := {
  FHE_asEuint32 : Z → euint32;
  FHE_add : euint32 → euint32 → euint32;
  FHE_isInitialized : euint32 → bool;
  FHE_checkSignatures : Z → bytes → bytes → bool;
  abi_decode : bytes → option (list string);
  FHE_plain : euint32 → Z;
  FHE_isAllowed : euint32 → bool;
  isAllowed_uninitialized : FHE_isAllowed uninitialized = false;
  isInitialized_uninitialized : FHE_isInitialized uninitialized = false;
  isInitialized_asEuint32 : ∀ v, FHE_isInitialized (FHE_asEuint32 v) = true;
  isInitialized_add : ∀ a b, FHE_isInitialized (FHE_add a b) = true;
  plain_asEuint32 : ∀ v, FHE_plain (FHE_asEuint32 v) = v mod 2 ^ 32;
  plain_add : ∀ a b,
    FHE_plain (FHE_add a b) = (FHE_plain a + FHE_plain b) mod 2 ^ 32
}.

(** [FHE.toBytes32] unwraps a handle. *)
Definition FHE_toBytes32 (h : euint32) : Z := h.

(** ** Storage *)

Record EncryptedTransaction := {
  id : Z;
  encryptedSellerId : euint32;
  encryptedBuyerId : euint32;
  encryptedEnergyAmount : euint32;
  encryptedPrice : euint32;
  timestamp : Z
}.

Record DecryptedTransaction := {
  sellerId : string;
  buyerId : string;
  energyAmount : string;
  price : string;
  isSettled : bool
}.

Record State := {
  transactionCount : Z;
  encryptedTransactions : gmap Z EncryptedTransaction;
  decryptedTransactions : gmap Z DecryptedTransaction;
  encryptedEnergyBySeller : gmap string Z;
  sellerList : list string;
  requestToTransactionId : gmap Z Z
}.

(** The value an unwritten slot of each mapping reads as. *)
Definition zeroEncrypted : EncryptedTransaction :=
  {| id := 0; encryptedSellerId := uninitialized;
     encryptedBuyerId := uninitialized;
     encryptedEnergyAmount := uninitialized;
     encryptedPrice := uninitialized; timestamp := 0 |}.

Definition emptyDecrypted : DecryptedTransaction :=
  {| sellerId := ""; buyerId := ""; energyAmount := ""; price := "";
     isSettled := false |}.

Definition encryptedAt (st : State) (k : Z) : EncryptedTransaction :=
  default zeroEncrypted (encryptedTransactions st !! k).

Definition decryptedAt (st : State) (k : Z) : DecryptedTransaction :=
  default emptyDecrypted (decryptedTransactions st !! k).

Definition energyAt (st : State) (seller : string) : euint32 :=
  default uninitialized (encryptedEnergyBySeller st !! seller).

Definition requestAt (st : State) (requestId : Z) : Z :=
  default 0 (requestToTransactionId st !! requestId).

(** The storage of a freshly deployed contract. *)
Definition init : State :=
  {| transactionCount := 0; encryptedTransactions := ∅;
     decryptedTransactions := ∅; encryptedEnergyBySeller := ∅;
     sellerList := []; requestToTransactionId := ∅ |}.

(** Storage writes, one per state variable. *)
Definition set_transactionCount (n : Z) (st : State) : State :=
  {| transactionCount := n;
     encryptedTransactions := encryptedTransactions st;
     decryptedTransactions := decryptedTransactions st;
     encryptedEnergyBySeller := encryptedEnergyBySeller st;
     sellerList := sellerList st;
     requestToTransactionId := requestToTransactionId st |}.

Definition write_encrypted (k : Z) (e : EncryptedTransaction) (st : State)
  : State :=
  {| transactionCount := transactionCount st;
     encryptedTransactions := <[k := e]> (encryptedTransactions st);
     decryptedTransactions := decryptedTransactions st;
     encryptedEnergyBySeller := encryptedEnergyBySeller st;
     sellerList := sellerList st;
     requestToTransactionId := requestToTransactionId st |}.

Definition write_decrypted (k : Z) (d : DecryptedTransaction) (st : State)
  : State :=
  {| transactionCount := transactionCount st;
     encryptedTransactions := encryptedTransactions st;
     decryptedTransactions := <[k := d]> (decryptedTransactions st);
     encryptedEnergyBySeller := encryptedEnergyBySeller st;
     sellerList := sellerList st;
     requestToTransactionId := requestToTransactionId st |}.

Definition write_energy (seller : string) (h : euint32) (st : State) : State :=
  {| transactionCount := transactionCount st;
     encryptedTransactions := encryptedTransactions st;
     decryptedTransactions := decryptedTransactions st;
     encryptedEnergyBySeller := <[seller := h]> (encryptedEnergyBySeller st);
     sellerList := sellerList st;
     requestToTransactionId := requestToTransactionId st |}.

Definition push_seller (seller : string) (st : State) : State :=
  {| transactionCount := transactionCount st;
     encryptedTransactions := encryptedTransactions st;
     decryptedTransactions := decryptedTransactions st;
     encryptedEnergyBySeller := encryptedEnergyBySeller st;
     sellerList := sellerList st ++ [seller];
     requestToTransactionId := requestToTransactionId st |}.

Definition write_request (requestId transactionId : Z) (st : State) : State :=
  {| transactionCount := transactionCount st;
     encryptedTransactions := encryptedTransactions st;
     decryptedTransactions := decryptedTransactions st;
     encryptedEnergyBySeller := encryptedEnergyBySeller st;
     sellerList := sellerList st;
     requestToTransactionId :=
       <[requestId := transactionId]> (requestToTransactionId st) |}.

(** ** Calls that may revert *)

Inductive Error :=
| AlreadySettled        (* require(..., "Already settled") *)
| InvalidRequest        (* require(..., "Invalid request") *)
| ProofInvalid          (* FHE.checkSignatures reverts *)
| DecodeFailure         (* abi.decode reverts *)
| IndexOutOfBounds      (* Panic(0x32) on results[i] *)
| ArithmeticOverflow    (* Panic(0x11) on checked += *)
| SenderNotAllowed      (* FHE.requestDecryption reverts in the ACL *)
| ACLNotAllowed.        (* FHE.add reverts in the executor *)

Inductive Result (A : Type) :=
| Ok (a : A)
| Revert (e : Error).
Arguments Ok {A} a.
Arguments Revert {A} e.

Definition bind {A B : Type} (r : Result A) (k : A → Result B) : Result B :=
  match r with
  | Ok a => k a
  | Revert e => Revert e
  end.

Definition require (cond : bool) (e : Error) : Result unit :=
  if cond then Ok () else Revert e.

Definition fromOption {A : Type} (o : option A) (e : Error) : Result A :=
  match o with
  | Some a => Ok a
  | None => Revert e
  end.

Notation "x ←! r ; k" := (bind r (fun x => k))
  (at level 100, r at next level, right associativity,
   format "'[v' x  ←!  r ; '/' k ']'").
Notation "r ;;! k" := (bind r (fun _ => k))
  (at level 100, right associativity,
   format "'[v' r  ;;! '/' k ']'").

(** Events, and the one outgoing call to the oracle, in emission order. *)
Inductive Effect :=
| TransactionSubmitted (txId : Z) (time : Z)
| DecryptionRequested (txId : Z)
| TransactionDecrypted (txId : Z)
| OracleRequest (ciphertexts : list Z).

(** ** The contract *)

Section Contract.
Context `{FHE : FHECapability}.

(** The access check the library makes on an operand.  [fresh] lists the
    handles that library operations returned to the contract earlier in the
    running call: the contract may use those for the rest of the
    transaction; any other handle needs a permission. *)
Definition operandAllowed (fresh : list euint32) (h : euint32) : bool :=
  bool_decide (h ∈ fresh) || FHE_isAllowed h.

(** [FHE.add]: the executor refuses an operand the contract is not allowed
    on, and otherwise returns the handle of the sum. *)
Definition FHE_add_checked (fresh : list euint32) (a b : euint32)
  : Result euint32 :=
  require (operandAllowed fresh a && operandAllowed fresh b) ACLNotAllowed ;;!
  Ok (FHE_add a b).

(** [FHE.requestDecryption]: the library first marks the handles as
    decryptable, which the access-control list refuses for a handle the
    contract is not allowed on, and then hands back the token [reqId] that
    numbers the request. *)
Definition FHE_requestDecryption (ciphertexts : list Z) (reqId : Z)
  : Result Z :=
  require (forallb FHE_isAllowed ciphertexts) SenderNotAllowed ;;!
  Ok reqId.

(** The handles [requestTransactionDecryption] collects for a record. *)
Definition recordCiphertexts (st : State) (transactionId : Z) : list Z :=
  [FHE_toBytes32 (encryptedSellerId (encryptedAt st transactionId));
   FHE_toBytes32 (encryptedBuyerId (encryptedAt st transactionId));
   FHE_toBytes32 (encryptedEnergyAmount (encryptedAt st transactionId));
   FHE_toBytes32 (encryptedPrice (encryptedAt st transactionId))].

(** [submitEncryptedTransaction]; [now] is [block.timestamp]. *)
Definition submitEncryptedTransaction (st : State)
    (encryptedSellerId encryptedBuyerId encryptedEnergyAmount
     encryptedPrice : euint32) (now : Z)
  : Result (State * list Effect) :=
  require (transactionCount st + 1 <=? uint256_max) ArithmeticOverflow ;;!
  let st := set_transactionCount (transactionCount st + 1) st in
  let newId := transactionCount st in
  let st := write_encrypted newId
    {| id := newId;
       encryptedSellerId := encryptedSellerId;
       encryptedBuyerId := encryptedBuyerId;
       encryptedEnergyAmount := encryptedEnergyAmount;
       encryptedPrice := encryptedPrice;
       timestamp := now |} st in
  let st := write_decrypted newId
    {| sellerId := ""; buyerId := ""; energyAmount := ""; price := "";
       isSettled := false |} st in
  Ok (st, [TransactionSubmitted newId now]).

(** [requestTransactionDecryption]; [reqId] is the token that
    [FHE.requestDecryption] hands back when it accepts the request.  The
    [onlyParticipant] modifier
    runs the body and nothing else.  The source line declaring
    [ciphertexts] reads [bytes32 ;]; the array has the four slots the next
    lines assign. *)
Definition requestTransactionDecryption (st : State) (transactionId : Z)
    (reqId : Z) : Result (State * list Effect) :=
  let txn := encryptedAt st transactionId in
  require (negb (isSettled (decryptedAt st transactionId)))
    AlreadySettled ;;!
  let ciphertexts :=
    [FHE_toBytes32 (encryptedSellerId txn);
     FHE_toBytes32 (encryptedBuyerId txn);
     FHE_toBytes32 (encryptedEnergyAmount txn);
     FHE_toBytes32 (encryptedPrice txn)] in
  reqId ←! FHE_requestDecryption ciphertexts reqId ;
  let st := write_request reqId transactionId st in
  Ok (st, [OracleRequest ciphertexts; DecryptionRequested transactionId]).

(** [decryptTransaction], the oracle's callback. *)
Definition decryptTransaction (st : State) (requestId : Z)
    (cleartexts proof : bytes) : Result (State * list Effect) :=
  let transactionId := requestAt st requestId in
  require (negb (transactionId =? 0)) InvalidRequest ;;!
  let dTxn := decryptedAt st transactionId in
  require (negb (isSettled dTxn)) AlreadySettled ;;!
  require (FHE_checkSignatures requestId cleartexts proof) ProofInvalid ;;!
  results ←! fromOption (abi_decode cleartexts) DecodeFailure ;
  r0 ←! fromOption (results !! 0%nat) IndexOutOfBounds ;
  r1 ←! fromOption (results !! 1%nat) IndexOutOfBounds ;
  r2 ←! fromOption (results !! 2%nat) IndexOutOfBounds ;
  r3 ←! fromOption (results !! 3%nat) IndexOutOfBounds ;
  let st := write_decrypted transactionId
    {| sellerId := r0; buyerId := r1; energyAmount := r2; price := r3;
       isSettled := true |} st in
  let seller := sellerId (decryptedAt st transactionId) in
  let '(st, fresh) :=
    if negb (FHE_isInitialized (energyAt st seller))
    then (push_seller seller (write_energy seller (FHE_asEuint32 0) st),
          [FHE_asEuint32 0])
    else (st, []) in
  let one := FHE_asEuint32 1 in
  sum ←! FHE_add_checked (one :: fresh) (energyAt st seller) one ;
  let st := write_energy seller sum st in
  Ok (st, [TransactionDecrypted transactionId]).

(** [getDecryptedTransaction]: a view with no [require]. *)
Definition getDecryptedTransaction (st : State) (transactionId : Z)
  : string * string * string * string * bool :=
  let txn := decryptedAt st transactionId in
  (sellerId txn, buyerId txn, energyAmount txn, price txn, isSettled txn).

(** [getEncryptedEnergyBySeller]. *)
Definition getEncryptedEnergyBySeller (st : State) (seller : string)
  : euint32 :=
  energyAt st seller.

End Contract.

(** ** Call sequences

    The ledger serialises calls: each one runs to completion on the storage
    its predecessor left, and a reverted call changes nothing. *)

Inductive Call :=
| CallSubmit (encryptedSellerId encryptedBuyerId encryptedEnergyAmount
              encryptedPrice : euint32) (now : Z)
| CallRequest (transactionId : Z) (reqId : Z)
| CallDecrypt (requestId : Z) (cleartexts proof : bytes).

Definition post (st : State) (r : Result (State * list Effect)) : State :=
  match r with
  | Ok (st', _) => st'
  | Revert _ => st
  end.

Definition emitted (r : Result (State * list Effect)) : list Effect :=
  match r with
  | Ok (_, effs) => effs
  | Revert _ => []
  end.

Definition succeeds {A : Type} (r : Result A) : bool :=
  match r with
  | Ok _ => true
  | Revert _ => false
  end.

Definition is_submit (c : Call) : bool :=
  match c with
  | CallSubmit _ _ _ _ _ => true
  | _ => false
  end.

Definition submittedId (e : Effect) : option Z :=
  match e with
  | TransactionSubmitted txId _ => Some txId
  | _ => None
  end.

Definition decryptedId (e : Effect) : option Z :=
  match e with
  | TransactionDecrypted txId => Some txId
  | _ => None
  end.

Section Traces.
Context `{FHE : FHECapability}.

Definition exec (st : State) (c : Call) : Result (State * list Effect) :=
  match c with
  | CallSubmit s b e p now => submitEncryptedTransaction st s b e p now
  | CallRequest transactionId reqId =>
      requestTransactionDecryption st transactionId reqId
  | CallDecrypt requestId cleartexts proof =>
      decryptTransaction st requestId cleartexts proof
  end.

Definition step (st : State) (c : Call) : State := post st (exec st c).

Fixpoint run (st : State) (cs : list Call) : State :=
  match cs with
  | [] => st
  | c :: cs' => run (step st c) cs'
  end.

(** Everything the calls of [cs] emit, in order. *)
Fixpoint effects (st : State) (cs : list Call) : list Effect :=
  match cs with
  | [] => []
  | c :: cs' => emitted (exec st c) ++ effects (step st c) cs'
  end.

(** The record a successful callback settles, with the projection it
    leaves in storage. *)
Definition settlementOf (st : State) (c : Call)
  : option (Z * DecryptedTransaction) :=
  match c with
  | CallDecrypt requestId _ _ =>
      if succeeds (exec st c)
      then Some (requestAt st requestId,
                 decryptedAt (step st c) (requestAt st requestId))
      else None
  | _ => None
  end.

(** Every settlement that happens along [cs]. *)
Fixpoint settlements (st : State) (cs : list Call)
  : list (Z * DecryptedTransaction) :=
  match cs with
  | [] => []
  | c :: cs' => option_list (settlementOf st c) ++ settlements (step st c) cs'
  end.

(** Every call of [cs] goes through. *)
Fixpoint allSucceed (st : State) (cs : list Call) : bool :=
  match cs with
  | [] => true
  | c :: cs' => succeeds (exec st c) && allSucceed (step st c) cs'
  end.

(** What one call does to the storage, case by case. *)
Inductive StepKind (st : State) (c : Call) : Prop :=
| StepReverted e :
    exec st c = Revert e → step st c = st → StepKind st c
| StepSubmitted s b e p now :
    c = CallSubmit s b e p now →
    transactionCount st + 1 ≤ uint256_max →
    exec st c
    = Ok (step st c, [TransactionSubmitted (transactionCount st + 1) now]) →
    transactionCount (step st c) = transactionCount st + 1 →
    decryptedTransactions (step st c)
    = <[transactionCount st + 1 := emptyDecrypted]>
        (decryptedTransactions st) →
    encryptedEnergyBySeller (step st c) = encryptedEnergyBySeller st →
    sellerList (step st c) = sellerList st →
    requestToTransactionId (step st c) = requestToTransactionId st →
    StepKind st c
| StepRequested transactionId reqId effs :
    c = CallRequest transactionId reqId →
    isSettled (decryptedAt st transactionId) = false →
    exec st c = Ok (step st c, effs) →
    omap submittedId effs = [] →
    step st c = write_request reqId transactionId st →
    StepKind st c
| StepDecrypted requestId cleartexts proof effs :
    c = CallDecrypt requestId cleartexts proof →
    decryptTransaction st requestId cleartexts proof
    = Ok (step st c, effs) →
    omap submittedId effs = [] →
    transactionCount (step st c) = transactionCount st →
    requestToTransactionId (step st c) = requestToTransactionId st →
    StepKind st c.

(** The contract's own test for "this seller has an accumulator". *)
Definition knownSeller (st : State) (seller : string) : bool :=
  FHE_isInitialized (getEncryptedEnergyBySeller st seller).

(** Whether the library lets a settlement add to the accumulator of
    [seller]: a seller seen for the first time gets a fresh encrypted zero,
    which the contract may use; a stored accumulator needs a permission,
    unless it happens to be the handle of the encrypted one just made. *)
Definition accumulatorUsable (st : State) (seller : string) : bool :=
  negb (FHE_isInitialized (energyAt st seller))
  || operandAllowed [FHE_asEuint32 1] (energyAt st seller).

(** The accumulator a settlement adds its unit to: the stored one, or a
    fresh encrypted zero for a seller seen for the first time. *)
Definition accumulatorBase (st : State) (seller : string) : euint32 :=
  if FHE_isInitialized (energyAt st seller)
  then energyAt st seller
  else FHE_asEuint32 0.

(** The number of settlements along [cs] whose projection names [seller]. *)
Definition settledCount (st : State) (cs : list Call) (seller : string)
  : nat :=
  length (filter (λ x, sellerId x.2 = seller) (settlements st cs)).

(** No settlement request of [cs] is answered with the token [requestId]. *)
Definition tokenUnused (requestId : Z) (cs : list Call) : Prop :=
  Forall (λ c, match c with
               | CallRequest _ reqId => reqId ≠ requestId
               | _ => True
               end) cs.

End Traces.

(** ** A reference capability

    An executable instance of the interface, for running the contract on
    concrete calls: the handle of cleartext [v] is [v + 1], a payload is its
    comma-separated fields, the only proof accepted is ["ok"], and the
    contract is allowed on every handle of a ciphertext, 1..2^32, and on
    no other. *)
Module Sim.

Definition asEuint32 (v : Z) : euint32 := v mod 2 ^ 32 + 1.
Definition plain (h : euint32) : Z := (h - 1) mod 2 ^ 32.
Definition add (a b : euint32) : euint32 :=
  (plain a + plain b) mod 2 ^ 32 + 1.
Definition isInitialized (h : euint32) : bool := negb (h =? 0).
Definition checkSignatures (requestId : Z) (cleartexts proof : bytes)
  : bool := String.eqb proof "ok".
Definition isAllowed (h : euint32) : bool := (0 <? h) && (h <=? 2 ^ 32).

Fixpoint fields (s : string) : list string :=
  match s with
  | EmptyString => [EmptyString]
  | String c s' =>
      if Ascii.eqb c (Ascii.ascii_of_nat 44)
      then EmptyString :: fields s'
      else match fields s' with
           | f :: fs => String c f :: fs
           | [] => [String c EmptyString]
           end
  end.

Definition decode (cleartexts : bytes) : option (list string) :=
  Some (fields cleartexts).

Lemma asEuint32_initialized v : isInitialized (asEuint32 v) = true.
Proof.
  unfold isInitialized, asEuint32.
  pose proof (Z.mod_pos_bound v (2 ^ 32) ltac:(lia)).
  apply negb_true_iff, Z.eqb_neq. lia.
Qed.

Lemma add_initialized a b : isInitialized (add a b) = true.
Proof.
  unfold isInitialized, add.
  pose proof (Z.mod_pos_bound (plain a + plain b) (2 ^ 32) ltac:(lia)).
  apply negb_true_iff, Z.eqb_neq. lia.
Qed.

Lemma asEuint32_plain v : plain (asEuint32 v) = v mod 2 ^ 32.
Proof.
  unfold plain, asEuint32.
  replace (v mod 2 ^ 32 + 1 - 1) with (v mod 2 ^ 32) by lia.
  apply Z.mod_mod. lia.
Qed.

Lemma add_plain a b : plain (add a b) = (plain a + plain b) mod 2 ^ 32.
Proof.
  unfold add. set (s := plain a + plain b). unfold plain.
  replace (s mod 2 ^ 32 + 1 - 1) with (s mod 2 ^ 32) by lia.
  apply Z.mod_mod. lia.
Qed.

#[export] Instance capability : FHECapability := {|
  FHE_asEuint32 := asEuint32;
  FHE_add := add;
  FHE_isInitialized := isInitialized;
  FHE_checkSignatures := checkSignatures;
  abi_decode := decode;
  FHE_plain := plain;
  FHE_isAllowed := isAllowed;
  isAllowed_uninitialized := eq_refl;
  isInitialized_uninitialized := eq_refl;
  isInitialized_asEuint32 := asEuint32_initialized;
  isInitialized_add := add_initialized;
  plain_asEuint32 := asEuint32_plain;
  plain_add := add_plain
|}.

End Sim.

(** ** Concrete runs used to exercise the statements *)
Module Demo.
Import Sim.

Definition payload : bytes := "alice,bob,10,500".

(** One record submitted, settlement requested under token 7. *)
Definition requested : State :=
  run init [CallSubmit 11 12 13 14 1000; CallRequest 1 7].

(** The same, after the oracle answered. *)
Definition settled : State := step requested (CallDecrypt 7 payload "ok").

(** The calls that lead to [requested] and to [settled]. *)
Definition requestedCalls : list Call :=
  [CallSubmit 11 12 13 14 1000; CallRequest 1 7].

Definition settledCalls : list Call :=
  [CallSubmit 11 12 13 14 1000; CallRequest 1 7; CallDecrypt 7 payload "ok"].


(** Two submits around a settlement request. *)
Definition submits : list Call :=
  [CallSubmit 11 12 13 14 1000; CallRequest 1 7; CallSubmit 21 22 23 24 1001].

(** A contract whose counter has reached the largest [uint256]. *)
Definition full : State := set_transactionCount uint256_max init.

(** One record with two settlement requests outstanding. *)
Definition twiceCalls : list Call :=
  [CallSubmit 11 12 13 14 1000; CallRequest 1 7; CallRequest 1 8].

Definition twice : State := run init twiceCalls.

(** Two records of the same seller and one of another, all settled. *)
Definition market : list Call :=
  [CallSubmit 11 12 13 14 1000; CallSubmit 21 22 23 24 1001;
   CallSubmit 31 32 33 34 1002;
   CallRequest 1 7; CallRequest 2 8; CallRequest 3 9;
   CallDecrypt 7 "alice,bob,10,500" "ok";
   CallDecrypt 8 "carol,bob,4,90" "ok";
   CallDecrypt 9 "alice,dave,7,350" "ok"].

End Demo.

(** * Properties of a single call *)

Section CallProperties.
Context `{FHE : FHECapability}.

Lemma decryptedAt_write_eq k d st : decryptedAt (write_decrypted k d st) k = d.
Proof. unfold decryptedAt. simpl. by rewrite lookup_insert_eq. Qed.

Lemma decryptedAt_write_ne k k' d st :
  k ≠ k' → decryptedAt (write_decrypted k d st) k' = decryptedAt st k'.
Proof. intros. unfold decryptedAt. simpl. by rewrite lookup_insert_ne. Qed.

Lemma energyAt_write_decrypted k d st seller :
  energyAt (write_decrypted k d st) seller = energyAt st seller.
Proof. done. Qed.

(** A callback that goes through passed the three guards, decoded four
    fields, and left exactly this storage. *)
Lemma decryptTransaction_ok st requestId cleartexts proof st' effs :
  decryptTransaction st requestId cleartexts proof = Ok (st', effs) →
  ∃ results r0 r1 r2 r3,
    requestAt st requestId ≠ 0 ∧
    isSettled (decryptedAt st (requestAt st requestId)) = false ∧
    FHE_checkSignatures requestId cleartexts proof = true ∧
    abi_decode cleartexts = Some results ∧
    results !! 0%nat = Some r0 ∧ results !! 1%nat = Some r1 ∧
    results !! 2%nat = Some r2 ∧ results !! 3%nat = Some r3 ∧
    effs = [TransactionDecrypted (requestAt st requestId)] ∧
    transactionCount st' = transactionCount st ∧
    encryptedTransactions st' = encryptedTransactions st ∧
    requestToTransactionId st' = requestToTransactionId st ∧
    decryptedTransactions st' =
      <[requestAt st requestId :=
          {| sellerId := r0; buyerId := r1; energyAmount := r2; price := r3;
             isSettled := true |}]> (decryptedTransactions st) ∧
    encryptedEnergyBySeller st' =
      <[r0 := FHE_add (accumulatorBase st r0) (FHE_asEuint32 1)]>
        (encryptedEnergyBySeller st) ∧
    sellerList st' =
      (if FHE_isInitialized (energyAt st r0)
       then sellerList st else sellerList st ++ [r0]).
Proof.
  unfold decryptTransaction, bind, require, fromOption.
  destruct (requestAt st requestId =? 0) eqn:Hid; simpl; [done|].
  destruct (isSettled (decryptedAt st (requestAt st requestId))) eqn:Hs;
    simpl; [done|].
  destruct (FHE_checkSignatures requestId cleartexts proof) eqn:Hp; [|done].
  destruct (abi_decode cleartexts) as [results|] eqn:Hd; [|done].
  destruct (results !! 0%nat) as [r0|] eqn:H0; [|done].
  destruct (results !! 1%nat) as [r1|] eqn:H1; [|done].
  destruct (results !! 2%nat) as [r2|] eqn:H2; [|done].
  destruct (results !! 3%nat) as [r3|] eqn:H3; [|done].
  rewrite !decryptedAt_write_eq. simpl.
  rewrite !energyAt_write_decrypted.
  unfold accumulatorBase, FHE_add_checked, bind, require.
  apply Z.eqb_neq in Hid.
  destruct (FHE_isInitialized (energyAt st r0)) eqn:Hi; simpl.
  - rewrite !energyAt_write_decrypted.
    match goal with
    | |- context [if ?c then _ else _] => destruct c; [|done]
    end.
    intros [= <- <-]. exists results, r0, r1, r2, r3. rewrite Hi.
    repeat split; done.
  - match goal with
    | |- context [if ?c then _ else _] => destruct c; [|done]
    end.
    intros [= <- <-]. exists results, r0, r1, r2, r3. rewrite Hi.
    repeat split; try done.
    unfold energyAt. simpl. by rewrite lookup_insert_eq, insert_insert_eq.
Qed.

Lemma operandAllowed_fresh fresh h :
  h ∈ fresh → operandAllowed fresh h = true.
Proof.
  intros Hin. unfold operandAllowed. by rewrite (bool_decide_eq_true_2 _ Hin).
Qed.

(** With the guards passed and four fields decoded, the callback stands or
    falls with the access check of [FHE.add]. *)
Lemma decryptTransaction_add st requestId cleartexts proof results
    r0 r1 r2 r3 :
  requestAt st requestId ≠ 0 →
  isSettled (decryptedAt st (requestAt st requestId)) = false →
  FHE_checkSignatures requestId cleartexts proof = true →
  abi_decode cleartexts = Some results →
  results !! 0%nat = Some r0 → results !! 1%nat = Some r1 →
  results !! 2%nat = Some r2 → results !! 3%nat = Some r3 →
  if accumulatorUsable st r0
  then succeeds (decryptTransaction st requestId cleartexts proof) = true
  else decryptTransaction st requestId cleartexts proof
       = Revert ACLNotAllowed.
Proof.
  intros Hid Hs Hp Hd H0 H1 H2 H3.
  unfold decryptTransaction, bind, require, fromOption.
  apply Z.eqb_neq in Hid. rewrite Hid, Hs, Hp, Hd, H0, H1, H2, H3. simpl.
  rewrite !decryptedAt_write_eq. simpl.
  rewrite !energyAt_write_decrypted.
  unfold accumulatorUsable, FHE_add_checked, bind, require.
  assert (operandAllowed [FHE_asEuint32 1] (FHE_asEuint32 1) = true) as Hone
    by (apply operandAllowed_fresh, list_elem_of_here).
  destruct (FHE_isInitialized (energyAt st r0)) eqn:Hi; simpl.
  - rewrite !energyAt_write_decrypted, Hone, andb_true_r.
    by destruct (operandAllowed [FHE_asEuint32 1] (energyAt st r0)).
  - assert (energyAt
              (push_seller r0
                 (write_energy r0 (FHE_asEuint32 0)
                    (write_decrypted (requestAt st requestId)
                       {| sellerId := r0; buyerId := r1; energyAmount := r2;
                          price := r3; isSettled := true |} st))) r0
            = FHE_asEuint32 0) as ->
      by (unfold energyAt; simpl; by rewrite lookup_insert_eq).
    rewrite !operandAllowed_fresh; [done|apply list_elem_of_here|].
    apply list_elem_of_further, list_elem_of_here.
Qed.

(** A callback that goes through found the seller's accumulator usable. *)
Lemma decryptTransaction_usable st requestId cleartexts proof st' effs :
  decryptTransaction st requestId cleartexts proof = Ok (st', effs) →
  ∃ results r0,
    abi_decode cleartexts = Some results ∧ results !! 0%nat = Some r0
    ∧ accumulatorUsable st r0 = true.
Proof.
  intros Hex. pose proof Hex as Hinv.
  apply decryptTransaction_ok in Hinv
    as (results & r0 & r1 & r2 & r3 & Hid & Hs & Hp & Hd & H0 & H1 & H2 & H3
        & _).
  exists results, r0. split; [done|]. split; [done|].
  pose proof (decryptTransaction_add st requestId cleartexts proof results
                r0 r1 r2 r3 Hid Hs Hp Hd H0 H1 H2 H3) as Hadd.
  destruct (accumulatorUsable st r0); [done|]. congruence.
Qed.

Lemma requestAt_lookup st requestId :
  requestAt st requestId ≠ 0 →
  requestToTransactionId st !! requestId = Some (requestAt st requestId).
Proof.
  unfold requestAt.
  destruct (requestToTransactionId st !! requestId); simpl; [done|lia].
Qed.

(** A reverted call is rolled back. *)
Lemma step_revert st c e : exec st c = Revert e → step st c = st.
Proof. unfold step. by intros ->. Qed.

Lemma step_ok st c st' effs : exec st c = Ok (st', effs) → step st c = st'.
Proof. unfold step. by intros ->. Qed.

(** C3: a callback whose token has no entry in [requestToTransactionId]
    reverts with "Invalid request", and the storage (projections,
    accumulators, seller list, pending requests, record count) is what it
    was before the call. *)
Theorem unknown_token_rejected st requestId cleartexts proof :
  requestToTransactionId st !! requestId = None →
  decryptTransaction st requestId cleartexts proof = Revert InvalidRequest
  ∧ step st (CallDecrypt requestId cleartexts proof) = st.
Proof.
  intros Hnone.
  assert (decryptTransaction st requestId cleartexts proof
          = Revert InvalidRequest) as Hrev.
  { unfold decryptTransaction, requestAt. by rewrite Hnone. }
  split; [done|]. by apply (step_revert _ _ InvalidRequest).
Qed.

(** C4: when [FHE.checkSignatures] rejects the payload the callback never
    goes through and the storage is untouched: the projection of the record
    the token names keeps its value, and no accumulator or seller-list entry
    appears or changes.  If the token is registered and its record is not
    yet settled, so that verification is reached, the error is
    [ProofInvalid]. *)
Theorem invalid_proof_rejected st requestId cleartexts proof :
  FHE_checkSignatures requestId cleartexts proof = false →
  let st' := step st (CallDecrypt requestId cleartexts proof) in
  succeeds (decryptTransaction st requestId cleartexts proof) = false
  ∧ st' = st
  ∧ decryptedAt st' (requestAt st requestId)
    = decryptedAt st (requestAt st requestId)
  ∧ encryptedEnergyBySeller st' = encryptedEnergyBySeller st
  ∧ sellerList st' = sellerList st
  ∧ (requestAt st requestId ≠ 0 →
     isSettled (decryptedAt st (requestAt st requestId)) = false →
     decryptTransaction st requestId cleartexts proof = Revert ProofInvalid).
Proof.
  intros Hbad st'.
  assert (∃ e, decryptTransaction st requestId cleartexts proof = Revert e)
    as [e He].
  { destruct (decryptTransaction st requestId cleartexts proof)
      as [[s1 effs]|e] eqn:Hres; [|by eexists].
    apply decryptTransaction_ok in Hres as (?&?&?&?&?&?&?&Hp&?). congruence. }
  assert (st' = st) as Heq by (by apply (step_revert _ _ e)).
  rewrite Heq, He. repeat split; try done.
  intros Hid Hs. rewrite <- He.
  unfold decryptTransaction, bind, require.
  apply Z.eqb_neq in Hid. by rewrite Hid, Hs, Hbad.
Qed.

(** C5: a settlement that goes through adds one encrypted unit to the
    accumulator of the seller named in the decoded payload (the seller now
    stored in the record's projection).  A seller whose accumulator was not
    initialised starts from an encrypted zero and is appended to
    [sellerList]; a known seller keeps its place in the list.  No other
    seller's accumulator changes. *)
Theorem settlement_credits_one_unit st requestId cleartexts proof st' effs :
  decryptTransaction st requestId cleartexts proof = Ok (st', effs) →
  let seller := sellerId (decryptedAt st' (requestAt st requestId)) in
  let before := getEncryptedEnergyBySeller st seller in
  let after := getEncryptedEnergyBySeller st' seller in
  (∃ results, abi_decode cleartexts = Some results
              ∧ results !! 0%nat = Some seller)
  ∧ (if FHE_isInitialized before
     then after = FHE_add before (FHE_asEuint32 1)
          ∧ FHE_plain after = (FHE_plain before + 1) mod 2 ^ 32
          ∧ sellerList st' = sellerList st
     else after = FHE_add (FHE_asEuint32 0) (FHE_asEuint32 1)
          ∧ FHE_plain after = 1
          ∧ sellerList st' = sellerList st ++ [seller])
  ∧ (∀ other, other ≠ seller →
       getEncryptedEnergyBySeller st' other
       = getEncryptedEnergyBySeller st other).
Proof.
  intros Hok.
  apply decryptTransaction_ok in Hok
    as (results & r0 & r1 & r2 & r3 & _ & _ & _ & Hd & H0 & _ & _ & _ & _
        & _ & _ & _ & Hdec & Henc & Hlist).
  assert (sellerId (decryptedAt st' (requestAt st requestId)) = r0) as ->.
  { unfold decryptedAt. by rewrite Hdec, lookup_insert_eq. }
  assert (energyAt st' r0 = FHE_add (accumulatorBase st r0) (FHE_asEuint32 1))
    as Hafter by (unfold energyAt; by rewrite Henc, lookup_insert_eq).
  simpl. unfold getEncryptedEnergyBySeller. rewrite Hafter.
  split; [by exists results|]. split.
  - rewrite Hlist. unfold accumulatorBase.
    destruct (FHE_isInitialized (energyAt st r0)).
    + repeat split; try done.
      rewrite plain_add, plain_asEuint32. by rewrite Z.add_mod_idemp_r.
    + repeat split; try done.
      by rewrite plain_add, !plain_asEuint32.
  - intros other Hne. unfold energyAt. by rewrite Henc, lookup_insert_ne.
Qed.

(** A settlement request changes nothing but the pending-request table. *)
Lemma decryptedAt_write_request reqId transactionId st k :
  decryptedAt (write_request reqId transactionId st) k = decryptedAt st k.
Proof. done. Qed.

Lemma request_settled st transactionId reqId :
  isSettled (decryptedAt st transactionId) = true →
  requestTransactionDecryption st transactionId reqId = Revert AlreadySettled.
Proof.
  intros Hs. unfold requestTransactionDecryption, bind, require.
  by rewrite Hs.
Qed.

Lemma request_unsettled st transactionId reqId :
  isSettled (decryptedAt st transactionId) = false →
  forallb FHE_isAllowed (recordCiphertexts st transactionId) = true →
  requestTransactionDecryption st transactionId reqId
  = Ok (write_request reqId transactionId st,
        [OracleRequest (recordCiphertexts st transactionId);
         DecryptionRequested transactionId]).
Proof.
  intros Hs Hacl.
  unfold requestTransactionDecryption, FHE_requestDecryption, bind, require,
    recordCiphertexts in *.
  rewrite Hs. simpl in *. by rewrite Hacl.
Qed.

Lemma request_refused st transactionId reqId :
  isSettled (decryptedAt st transactionId) = false →
  forallb FHE_isAllowed (recordCiphertexts st transactionId) = false →
  requestTransactionDecryption st transactionId reqId
  = Revert SenderNotAllowed.
Proof.
  intros Hs Hacl.
  unfold requestTransactionDecryption, FHE_requestDecryption, bind, require,
    recordCiphertexts in *.
  rewrite Hs. simpl in *. by rewrite Hacl.
Qed.

(** A settlement request that goes through found the projection unsettled
    and the contract allowed on the four handles of the record. *)
Lemma request_ok st transactionId reqId st' effs :
  requestTransactionDecryption st transactionId reqId = Ok (st', effs) →
  isSettled (decryptedAt st transactionId) = false
  ∧ forallb FHE_isAllowed (recordCiphertexts st transactionId) = true
  ∧ st' = write_request reqId transactionId st
  ∧ effs = [OracleRequest (recordCiphertexts st transactionId);
            DecryptionRequested transactionId].
Proof.
  destruct (isSettled (decryptedAt st transactionId)) eqn:Hs.
  { by rewrite request_settled. }
  destruct (forallb FHE_isAllowed (recordCiphertexts st transactionId))
    eqn:Hacl.
  - rewrite request_unsettled by done. by intros [= <- <-].
  - by rewrite request_refused.
Qed.

(** A record with an uninitialised handle does not pass the library's
    check. *)
Lemma allowed_record_stored st transactionId :
  forallb FHE_isAllowed (recordCiphertexts st transactionId) = true →
  is_Some (encryptedTransactions st !! transactionId).
Proof.
  unfold recordCiphertexts, encryptedAt.
  destruct (encryptedTransactions st !! transactionId); [by eexists|].
  simpl. unfold FHE_toBytes32. by rewrite isAllowed_uninitialized.
Qed.

End CallProperties.

(** * Properties of call sequences *)

Section TraceProperties.
Context `{FHE : FHECapability}.

Lemma run_snoc st cs c : run st (cs ++ [c]) = step (run st cs) c.
Proof. revert st. induction cs as [|c' cs IH]; intros st; simpl; [done|]. apply IH. Qed.

Lemma effects_snoc st cs c :
  effects st (cs ++ [c]) = effects st cs ++ emitted (exec (run st cs) c).
Proof.
  revert st. induction cs as [|c' cs IH]; intros st; simpl.
  - by rewrite app_nil_r.
  - by rewrite IH, app_assoc.
Qed.

Lemma settlements_snoc st cs c :
  settlements st (cs ++ [c])
  = settlements st cs ++ option_list (settlementOf (run st cs) c).
Proof.
  revert st. induction cs as [|c' cs IH]; intros st; simpl.
  - by rewrite app_nil_r.
  - by rewrite IH, app_assoc.
Qed.

Lemma step_kind st c : StepKind st c.
Proof.
  destruct c as [s b e p now|transactionId reqId|requestId cleartexts proof].
  - destruct (decide (transactionCount st + 1 ≤ uint256_max)) as [Hle|Hgt].
    + assert (exec st (CallSubmit s b e p now)
              = Ok (step st (CallSubmit s b e p now),
                    [TransactionSubmitted (transactionCount st + 1) now]))
        as Hex.
      { unfold step. simpl. unfold submitEncryptedTransaction, bind, require.
        apply Z.leb_le in Hle. by rewrite Hle. }
      eapply StepSubmitted; try done.
      all: unfold step; simpl;
        unfold submitEncryptedTransaction, bind, require;
        apply Z.leb_le in Hle; by rewrite Hle.
    + eapply (StepReverted _ _ ArithmeticOverflow).
      * simpl. unfold submitEncryptedTransaction, bind, require.
        assert ((transactionCount st + 1 <=? uint256_max) = false) as ->
          by (apply Z.leb_gt; lia).
        done.
      * unfold step. simpl. unfold submitEncryptedTransaction, bind, require.
        destruct (transactionCount st + 1 <=? uint256_max) eqn:Hle; [|done].
        apply Z.leb_le in Hle. lia.
  - destruct (requestTransactionDecryption st transactionId reqId)
      as [[st' effs]|e] eqn:Hex.
    + pose proof Hex as (Hs & _ & -> & ->)%request_ok.
      assert (step st (CallRequest transactionId reqId)
              = write_request reqId transactionId st) as Hstep
        by (by eapply step_ok).
      eapply StepRequested; try done.
      * simpl. rewrite Hstep. apply Hex.
      * done.
    + eapply StepReverted; [done|]. by eapply step_revert.
  - destruct (decryptTransaction st requestId cleartexts proof)
      as [[st' effs]|e] eqn:Hex.
    + assert (step st (CallDecrypt requestId cleartexts proof) = st')
        as Hstep by (by eapply step_ok).
      rewrite <- Hstep in Hex.
      pose proof Hex as Hinv. apply decryptTransaction_ok in Hinv
          as (?&?&?&?&?&?&?&?&?&?&?&?&?&->&?&?&?&?).
      by eapply StepDecrypted.
    + eapply StepReverted; [done|]. by eapply step_revert.
Qed.

(** The record count never decreases. *)
Lemma transactionCount_step st c :
  transactionCount st ≤ transactionCount (step st c).
Proof.
  destruct (step_kind st c) as [e _ ->|s b e p now _ _ _ -> _ _ _ _
    |transactionId reqId effs _ _ _ _ ->
    |requestId cleartexts proof effs _ _ _ -> _]; simpl; lia.
Qed.

Lemma transactionCount_run st cs :
  transactionCount st ≤ transactionCount (run st cs).
Proof.
  revert st. induction cs as [|c cs IH]; intros st; simpl; [done|].
  pose proof (transactionCount_step st c). specialize (IH (step st c)). lia.
Qed.

(** C6: take any sequence of calls on a fresh contract and let N be the
    number of submit calls in it (at most 2^256 - 1, the range of the
    counter).  The identifiers announced by [TransactionSubmitted] are
    1, 2, ..., N in call order, so every submit went through and no
    identifier is skipped or repeated, and the counter ends at N.  Each
    submit that goes through announces the counter plus one and stores the
    empty, unsettled projection under that identifier. *)
Theorem submit_ids_dense cs :
  Z.of_nat (length (List.filter is_submit cs)) ≤ uint256_max →
  omap submittedId (effects init cs)
  = Z.of_nat <$> seq 1 (length (List.filter is_submit cs))
  ∧ transactionCount (run init cs)
    = Z.of_nat (length (List.filter is_submit cs))
  ∧ ∀ st s b e p now st' effs,
      submitEncryptedTransaction st s b e p now = Ok (st', effs) →
      effs = [TransactionSubmitted (transactionCount st + 1) now]
      ∧ transactionCount st' = transactionCount st + 1
      ∧ decryptedTransactions st' !! (transactionCount st + 1)
        = Some emptyDecrypted
      ∧ getDecryptedTransaction st' (transactionCount st + 1)
        = ("", "", "", "", false).
Proof.
  intros Hbound.
  assert (omap submittedId (effects init cs)
          = Z.of_nat <$> seq 1 (length (List.filter is_submit cs))
          ∧ transactionCount (run init cs)
            = Z.of_nat (length (List.filter is_submit cs))) as [Hids Hcount].
  { revert Hbound. induction cs as [|c cs IH] using rev_ind; [done|].
    rewrite List.filter_app, length_app. simpl. intros Hbound.
    destruct IH as [IHids IHcount]; [lia|].
    rewrite run_snoc, effects_snoc, omap_app, IHids.
    destruct (step_kind (run init cs) c)
      as [e Hex Hst|s b e p now -> Hle Hex Hcnt _ _ _ _
         |transactionId reqId effs -> _ Hex Homap Hst
         |requestId cleartexts proof effs -> Hex Homap Hcnt _].
    - rewrite Hex, Hst. simpl. rewrite app_nil_r.
      destruct c as [s b e' p now| |]; simpl.
      + exfalso. simpl in Hex. simpl in Hbound.
        unfold submitEncryptedTransaction, bind, require in Hex.
        destruct (transactionCount (run init cs) + 1 <=? uint256_max)
          eqn:Hle; [done|].
        apply Z.leb_gt in Hle. lia.
      + by rewrite Nat.add_0_r.
      + by rewrite Nat.add_0_r.
    - rewrite Hex, Hcnt. simpl.
      rewrite seq_app, fmap_app. simpl. rewrite IHcount.
      split; [|lia]. do 3 f_equal. lia.
    - rewrite Hex. simpl emitted. rewrite Homap, app_nil_r. simpl.
      rewrite Nat.add_0_r. split; [done|]. by rewrite Hst.
    - simpl exec. rewrite Hex. simpl emitted. rewrite Homap, app_nil_r.
      simpl. rewrite Nat.add_0_r. split; [done|]. by rewrite Hcnt. }
  split; [done|]. split; [done|].
  intros st s b e p now st' effs.
  unfold submitEncryptedTransaction, bind, require.
  destruct (transactionCount st + 1 <=? uint256_max); [|done].
  intros [= <- <-]. simpl. repeat split; try done.
  - by rewrite lookup_insert_eq.
  - unfold getDecryptedTransaction, decryptedAt. simpl.
    by rewrite lookup_insert_eq.
Qed.

Lemma settlementOf_decrypt st requestId cleartexts proof st' effs :
  decryptTransaction st requestId cleartexts proof = Ok (st', effs) →
  settlementOf st (CallDecrypt requestId cleartexts proof)
  = Some (requestAt st requestId, decryptedAt st' (requestAt st requestId)).
Proof. intros Hex. unfold settlementOf, step. simpl. by rewrite Hex. Qed.

Lemma settlementOf_revert st c e :
  exec st c = Revert e → settlementOf st c = None.
Proof. intros Hex. destruct c; simpl; try done. simpl in Hex. by rewrite Hex. Qed.

(** Only a settlement touches the seller list and the accumulators. *)
Lemma sellers_frame st c :
  settlementOf st c = None →
  sellerList (step st c) = sellerList st
  ∧ encryptedEnergyBySeller (step st c) = encryptedEnergyBySeller st.
Proof.
  intros Hnone.
  destruct (step_kind st c)
    as [e _ ->|s b e p now _ _ _ _ _ -> -> _
       |transactionId reqId effs _ _ _ _ ->
       |requestId cleartexts proof effs -> Hex _ _ _]; try done.
  apply settlementOf_decrypt in Hex. congruence.
Qed.

(** The seller list, the accumulator table and the settlement history name
    the same sellers, each once, and every stored accumulator is an
    initialised handle. *)
Lemma sellers_invariant cs :
  let st := run init cs in
  (∀ s, s ∈ sellerList st ↔ is_Some (encryptedEnergyBySeller st !! s))
  ∧ (∀ s h, encryptedEnergyBySeller st !! s = Some h →
            FHE_isInitialized h = true)
  ∧ NoDup (sellerList st)
  ∧ (∀ s, s ∈ sellerList st
          ↔ s ∈ (λ x, sellerId x.2) <$> settlements init cs).
Proof.
  induction cs as [|c cs IH] using rev_ind.
  { simpl. split; [|split; [|split]].
    - intros s. rewrite lookup_empty.
      split; [by intros ?%elem_of_nil | by intros [? ?]].
    - intros s h. by rewrite lookup_empty.
    - constructor.
    - done. }
  simpl in IH. destruct IH as (Hdom & Hinit & Hnodup & Hhist).
  simpl. rewrite run_snoc, settlements_snoc, fmap_app.
  destruct (settlementOf (run init cs) c) as [[tid d]|] eqn:Hset.
  - destruct c as [| |requestId cleartexts proof]; try done.
    destruct (decryptTransaction (run init cs) requestId cleartexts proof)
      as [[st' effs]|e] eqn:Hex;
      [|by rewrite (settlementOf_revert _ _ e) in Hset].
    rewrite (settlementOf_decrypt _ _ _ _ _ _ Hex) in Hset.
    injection Hset as <- <-.
    rewrite (step_ok _ (CallDecrypt requestId cleartexts proof) _ _ Hex).
    simpl.
    apply decryptTransaction_ok in Hex
      as (results & r0 & r1 & r2 & r3 & _ & _ & _ & _ & _ & _ & _ & _ & _
          & _ & _ & _ & Hdec & Henc & Hlist).
    assert (sellerId (decryptedAt st' (requestAt (run init cs) requestId))
            = r0) as ->
      by (unfold decryptedAt; by rewrite Hdec, lookup_insert_eq).
    rewrite Henc, Hlist.
    assert (FHE_isInitialized (energyAt (run init cs) r0) = true
            ↔ r0 ∈ sellerList (run init cs)) as Hknown.
    { rewrite Hdom. unfold energyAt.
      destruct (encryptedEnergyBySeller (run init cs) !! r0) as [h|] eqn:Hh;
        simpl.
      - split; [by eexists|]. intros _. by eapply Hinit.
      - rewrite isInitialized_uninitialized. split; [done|].
        by intros [? ?]. }
    assert (∀ s, s ≠ r0 →
              (s ∈ (if FHE_isInitialized (energyAt (run init cs) r0)
                    then sellerList (run init cs)
                    else sellerList (run init cs) ++ [r0])
               ↔ s ∈ sellerList (run init cs))) as Hother.
    { intros s Hne.
      destruct (FHE_isInitialized (energyAt (run init cs) r0)); [done|].
      rewrite elem_of_app, list_elem_of_singleton. tauto. }
    assert (r0 ∈ (if FHE_isInitialized (energyAt (run init cs) r0)
                  then sellerList (run init cs)
                  else sellerList (run init cs) ++ [r0])) as Hthis.
    { destruct (FHE_isInitialized (energyAt (run init cs) r0)) eqn:Hi.
      - by apply Hknown.
      - rewrite elem_of_app, list_elem_of_singleton. by right. }
    split; [|split; [|split]].
    + intros s. destruct (decide (s = r0)) as [->|Hne].
      * rewrite lookup_insert_eq. split; [by eexists | done].
      * rewrite lookup_insert_ne, Hother by done. apply Hdom.
    + intros s h. destruct (decide (s = r0)) as [->|Hne].
      * rewrite lookup_insert_eq. intros [= <-]. apply isInitialized_add.
      * rewrite lookup_insert_ne by done. apply Hinit.
    + destruct (FHE_isInitialized (energyAt (run init cs) r0)) eqn:Hi;
        [done|].
      apply NoDup_app. repeat split; [done| |apply NoDup_singleton].
      intros x Hx ->%list_elem_of_singleton.
      apply Hknown in Hx. congruence.
    + intros s. simpl. rewrite elem_of_app, list_elem_of_singleton.
      destruct (decide (s = r0)) as [->|Hne].
      * split; [by right | done].
      * rewrite Hother, Hhist by done. tauto.
  - destruct (sellers_frame _ _ Hset) as [-> ->]. simpl.
    rewrite app_nil_r. done.
Qed.

(** C7: in every state reached from a fresh contract, for every string, the
    contract holds an initialised accumulator for it exactly when it is in
    [sellerList], and exactly when it is the [sellerId] that some settlement
    of the history wrote into a projection; the list has no seller twice.
    A call that is not a settlement going through leaves the list and the
    accumulator table as they were. *)
Theorem known_sellers_are_settled_sellers cs seller :
  let st := run init cs in
  (knownSeller st seller = true ↔ seller ∈ sellerList st)
  ∧ (seller ∈ dom (encryptedEnergyBySeller st) ↔ seller ∈ sellerList st)
  ∧ (seller ∈ sellerList st
     ↔ seller ∈ (λ x, sellerId x.2) <$> settlements init cs)
  ∧ NoDup (sellerList st)
  ∧ ∀ st0 c,
      settlementOf st0 c = None →
      sellerList (step st0 c) = sellerList st0
      ∧ encryptedEnergyBySeller (step st0 c) = encryptedEnergyBySeller st0.
Proof.
  destruct (sellers_invariant cs) as (Hdom & Hinit & Hnodup & Hhist).
  simpl. repeat split; try done.
  - unfold knownSeller, getEncryptedEnergyBySeller, energyAt. intros Hk.
    apply Hdom.
    destruct (encryptedEnergyBySeller (run init cs) !! seller); [done|].
    simpl in Hk. by rewrite isInitialized_uninitialized in Hk.
  - intros [h Hh]%Hdom.
    unfold knownSeller, getEncryptedEnergyBySeller, energyAt. rewrite Hh.
    by eapply Hinit.
  - intros Hin%elem_of_dom. by apply Hdom.
  - intros Hin. apply elem_of_dom. by apply Hdom.
  - by apply Hhist.
  - by apply Hhist.
  - by apply sellers_frame.
  - by apply sellers_frame.
Qed.

(** What a call does to the table of encrypted records. *)
Lemma encrypted_step st c :
  (transactionCount (step st c) = transactionCount st
   ∧ encryptedTransactions (step st c) = encryptedTransactions st)
  ∨ ∃ s b e p now,
      c = CallSubmit s b e p now
      ∧ transactionCount st + 1 ≤ uint256_max
      ∧ transactionCount (step st c) = transactionCount st + 1
      ∧ encryptedTransactions (step st c)
        = <[transactionCount st + 1 :=
              {| id := transactionCount st + 1; encryptedSellerId := s;
                 encryptedBuyerId := b; encryptedEnergyAmount := e;
                 encryptedPrice := p; timestamp := now |}]>
            (encryptedTransactions st).
Proof.
  destruct c as [s b e p now|transactionId reqId|requestId cleartexts proof].
  - unfold step. simpl. unfold submitEncryptedTransaction, bind, require.
    destruct (transactionCount st + 1 <=? uint256_max) eqn:Hle; simpl.
    + right. exists s, b, e, p, now. apply Z.leb_le in Hle. done.
    + by left.
  - left.
    destruct (requestTransactionDecryption st transactionId reqId)
      as [[st' effs]|e] eqn:Hex.
    + rewrite (step_ok _ (CallRequest transactionId reqId) _ _ Hex).
      by apply request_ok in Hex as (_ & _ & -> & _).
    + by rewrite (step_revert _ (CallRequest transactionId reqId) e).
  - left.
    destruct (decryptTransaction st requestId cleartexts proof)
      as [[st' effs]|e] eqn:Hex.
    + rewrite (step_ok _ (CallDecrypt requestId cleartexts proof) _ _ Hex).
      apply decryptTransaction_ok in Hex
        as (?&?&?&?&?&?&?&?&?&?&?&?&?&?&?&?&?). done.
    + by rewrite (step_revert _ (CallDecrypt requestId cleartexts proof) e).
Qed.

(** On a contract driven from deployment the counter is not negative and
    the encrypted records sit under identifiers up to the counter. *)
Lemma encrypted_domain cs :
  0 ≤ transactionCount (run init cs)
  ∧ ∀ k, is_Some (encryptedTransactions (run init cs) !! k) →
         1 ≤ k ≤ transactionCount (run init cs).
Proof.
  induction cs as [|c cs IH] using rev_ind.
  { simpl. split; [done|]. intros k. rewrite lookup_empty. by intros [? ?]. }
  rewrite run_snoc. destruct IH as [Hpos Hin].
  destruct (encrypted_step (run init cs) c)
    as [[-> ->]|(s & b & e & p & now & _ & _ & -> & ->)]; [done|].
  split; [lia|]. intros k.
  destruct (decide (k = transactionCount (run init cs) + 1)) as [->|Hne];
    [lia|].
  rewrite lookup_insert_ne by done. intros ?%Hin. lia.
Qed.

(** On a contract driven from deployment every pending request and every
    stored projection belongs to a submitted record: the library accepts a
    request only for handles the contract is allowed on, and the record of
    an identifier that no submit assigned has none. *)
Lemma reachable_invariant cs :
  (∀ r v, requestToTransactionId (run init cs) !! r = Some v →
          1 ≤ v ≤ transactionCount (run init cs))
  ∧ ∀ k, is_Some (decryptedTransactions (run init cs) !! k) →
         1 ≤ k ≤ transactionCount (run init cs).
Proof.
  induction cs as [|c cs IH] using rev_ind.
  { simpl. split; intros ?; [intros ?|]; rewrite lookup_empty;
      [done|by intros [? ?]]. }
  rewrite run_snoc. destruct IH as [Hpend Hproj].
  destruct (encrypted_domain cs) as [Hpos Henc].
  pose proof (transactionCount_step (run init cs) c) as Hmono.
  destruct (step_kind (run init cs) c)
    as [e _ Hst|s b e p now _ _ _ Hcnt Hdec _ _ Hreq
       |transactionId reqId effs -> _ Hex _ Hst
       |requestId cleartexts proof effs _ Hex _ Hcnt Hreq].
  - rewrite Hst. done.
  - rewrite Hreq, Hdec, Hcnt. split.
    + intros r v ?%Hpend. lia.
    + intros k.
      destruct (decide (k = transactionCount (run init cs) + 1))
        as [->|Hne]; [lia|].
      rewrite lookup_insert_ne by done. intros ?%Hproj. lia.
  - simpl in Hex. apply request_ok in Hex as (_ & Hacl & _ & _).
    apply allowed_record_stored, Henc in Hacl.
    rewrite Hst. simpl. split; [|done].
    intros r v. destruct (decide (r = reqId)) as [->|Hne].
    + rewrite lookup_insert_eq. by intros [= <-].
    + rewrite lookup_insert_ne by done. apply Hpend.
  - rewrite Hreq, Hcnt. split; [done|].
    apply decryptTransaction_ok in Hex
      as (results & r0 & r1 & r2 & r3 & Hid & _ & _ & _ & _ & _ & _ & _ & _
          & _ & _ & _ & Hdec & _).
    rewrite Hdec. intros k.
    destruct (decide (k = requestAt (run init cs) requestId)) as [->|Hne].
    + intros _. by apply (Hpend requestId), requestAt_lookup.
    + rewrite lookup_insert_ne by done. apply Hproj.
Qed.

(** A settled projection is a stored one. *)
Lemma settled_is_stored st k :
  isSettled (decryptedAt st k) = true →
  is_Some (decryptedTransactions st !! k).
Proof.
  unfold decryptedAt. by destruct (decryptedTransactions st !! k); [eexists|].
Qed.

(** A token that no later request is answered with keeps its entry. *)
Lemma pending_unused st cs requestId :
  tokenUnused requestId cs →
  requestToTransactionId (run st cs) !! requestId
  = requestToTransactionId st !! requestId.
Proof.
  revert st. induction cs as [|c cs IH]; intros st Hun; [done|].
  apply Forall_cons in Hun as [Hc Hun]. simpl. rewrite IH by done.
  destruct (step_kind st c)
    as [e _ ->|s b e p now _ _ _ _ _ _ _ ->
       |transactionId reqId effs -> _ _ _ ->
       |? ? ? effs _ _ _ _ ->]; try done.
  simpl. by rewrite lookup_insert_ne.
Qed.

(** The projection of a submitted record is final once it is settled. *)
Lemma settled_record_frozen st cs transactionId :
  1 ≤ transactionId ≤ transactionCount st →
  isSettled (decryptedAt st transactionId) = true →
  decryptedAt (run st cs) transactionId = decryptedAt st transactionId.
Proof.
  revert st. induction cs as [|c cs IH]; intros st Hex Hs; [done|].
  simpl.
  assert (decryptedAt (step st c) transactionId = decryptedAt st transactionId)
    as Hstep.
  { destruct (step_kind st c)
      as [e _ ->|s b e p now _ _ _ _ Hdec _ _ _
         |tid reqId effs _ _ _ _ ->
         |requestId cleartexts proof effs _ Hok _ _ _]; try done.
    - unfold decryptedAt. rewrite Hdec, lookup_insert_ne by lia. done.
    - apply decryptTransaction_ok in Hok
        as (results & r0 & r1 & r2 & r3 & _ & Hs' & _ & _ & _ & _ & _ & _
            & _ & _ & _ & _ & Hdec & _).
      unfold decryptedAt at 1. rewrite Hdec, lookup_insert_ne; [done|].
      intros Heq. rewrite Heq in Hs'. congruence. }
  pose proof (transactionCount_step st c).
  rewrite IH; [done|lia|by rewrite Hstep].
Qed.

(** After that, every callback whose token names the record reverts with
    "Already settled". *)
Lemma settled_record_rejects st cs requestId cleartexts proof :
  1 ≤ requestAt (run st cs) requestId ≤ transactionCount st →
  isSettled (decryptedAt st (requestAt (run st cs) requestId)) = true →
  decryptTransaction (run st cs) requestId cleartexts proof
  = Revert AlreadySettled.
Proof.
  intros Hex Hs. unfold decryptTransaction, bind, require.
  assert ((requestAt (run st cs) requestId =? 0) = false) as ->
    by (apply Z.eqb_neq; lia).
  simpl. by rewrite settled_record_frozen, Hs.
Qed.

Lemma settlementOf_Some st c transactionId d :
  settlementOf st c = Some (transactionId, d) →
  isSettled (decryptedAt st transactionId) = false
  ∧ isSettled (decryptedAt (step st c) transactionId) = true.
Proof.
  destruct c as [| |requestId cleartexts proof]; try done.
  destruct (decryptTransaction st requestId cleartexts proof)
    as [[st' effs]|e] eqn:Hex.
  - rewrite (settlementOf_decrypt _ _ _ _ _ _ Hex). intros [= <- <-].
    rewrite (step_ok _ (CallDecrypt requestId cleartexts proof) _ _ Hex).
    apply decryptTransaction_ok in Hex
      as (results & r0 & r1 & r2 & r3 & _ & Hs & _ & _ & _ & _ & _ & _ & _
          & _ & _ & _ & Hdec & _).
    split; [done|]. unfold decryptedAt. by rewrite Hdec, lookup_insert_eq.
  - by rewrite (settlementOf_revert _ _ e).
Qed.

(** A settled record that exists is not settled again. *)
Lemma settled_record_not_resettled st cs transactionId :
  1 ≤ transactionId ≤ transactionCount st →
  isSettled (decryptedAt st transactionId) = true →
  transactionId ∉ (settlements st cs).*1.
Proof.
  revert st. induction cs as [|c cs IH]; intros st Hex Hs.
  { apply not_elem_of_nil. }
  simpl. rewrite fmap_app, not_elem_of_app. split.
  - destruct (settlementOf st c) as [[tid d]|] eqn:Hset;
      [|apply not_elem_of_nil].
    simpl. rewrite list_elem_of_singleton. intros ->.
    apply settlementOf_Some in Hset as [Hs' _]. congruence.
  - pose proof (transactionCount_step st c).
    apply IH; [lia|].
    pose proof (settled_record_frozen st [c] transactionId Hex Hs) as Hfr.
    simpl in Hfr. by rewrite Hfr.
Qed.

(** Hence a record that exists is settled by at most one callback: after
    the callback that settles it, no continuation settles it again. *)
Lemma existing_record_settled_once st cs c cs' transactionId d :
  1 ≤ transactionId ≤ transactionCount st →
  settlementOf (run st cs) c = Some (transactionId, d) →
  transactionId ∉ (settlements (step (run st cs) c) cs').*1.
Proof.
  intros Hex [_ Hs]%settlementOf_Some.
  pose proof (transactionCount_run st cs).
  pose proof (transactionCount_step (run st cs) c).
  apply settled_record_not_resettled; [lia|done].
Qed.

(** A record that a callback of the history settled is settled. *)
Lemma settled_history cs k :
  k ∈ (settlements init cs).*1 →
  isSettled (decryptedAt (run init cs) k) = true.
Proof.
  induction cs as [|c cs IH] using rev_ind.
  { by intros ?%elem_of_nil. }
  rewrite run_snoc, settlements_snoc, fmap_app, elem_of_app.
  intros [Hold|Hnew].
  - specialize (IH Hold).
    destruct (reachable_invariant cs) as [_ Hproj].
    pose proof (Hproj k (settled_is_stored _ _ IH)) as Hk.
    pose proof (settled_record_frozen (run init cs) [c] k Hk IH) as Hfr.
    simpl in Hfr. by rewrite Hfr.
  - destruct (settlementOf (run init cs) c) as [[tid d]|] eqn:Hset;
      [|by apply elem_of_nil in Hnew].
    simpl in Hnew. apply list_elem_of_singleton in Hnew as ->.
    by apply settlementOf_Some in Hset as [_ ?].
Qed.

(** C1: on a contract driven from deployment no record is settled by two
    callbacks, whatever tokens were issued for it.  Once the projection of
    a record is settled, it stays as it is under every further call, so the
    flag is never cleared and the fields are never written again; no later
    callback settles the record, and every callback whose token names it
    reverts with "Already settled". *)
Theorem settlement_at_most_once cs :
  NoDup (settlements init cs).*1
  ∧ ∀ k,
      isSettled (decryptedAt (run init cs) k) = true →
      ∀ cs',
        decryptedAt (run (run init cs) cs') k = decryptedAt (run init cs) k
        ∧ (k ∉ (settlements (run init cs) cs').*1)
        ∧ ∀ requestId cleartexts proof,
            requestAt (run (run init cs) cs') requestId = k →
            decryptTransaction (run (run init cs) cs') requestId
              cleartexts proof
            = Revert AlreadySettled.
Proof.
  split.
  - induction cs as [|c cs IH] using rev_ind; [constructor|].
    rewrite settlements_snoc, fmap_app. apply NoDup_app.
    split; [done|]. split.
    + intros k Hold Hnew. apply settled_history in Hold.
      destruct (settlementOf (run init cs) c) as [[tid d]|] eqn:Hset;
        [|by apply elem_of_nil in Hnew].
      simpl in Hnew. apply list_elem_of_singleton in Hnew as ->.
      apply settlementOf_Some in Hset as [Hs _]. congruence.
    + destruct (settlementOf (run init cs) c) as [[tid d]|]; simpl;
        [apply NoDup_singleton | constructor].
  - intros k Hs cs'.
    destruct (reachable_invariant cs) as [_ Hproj].
    pose proof (Hproj k (settled_is_stored _ _ Hs)) as Hk.
    pose proof (settled_record_frozen (run init cs) cs' k Hk Hs) as Hfr.
    split; [done|]. split; [by apply settled_record_not_resettled|].
    intros requestId cleartexts proof <-.
    by apply settled_record_rejects.
Qed.


(** C8: [getDecryptedTransaction] is a view without a guard, so it answers
    for every identifier.  On a contract driven from deployment, for an
    identifier outside 1..transactionCount, which no submit has assigned,
    the answer is the all-empty unsettled projection, and it is what a
    record submitted next shows under its own identifier. *)
Theorem unsubmitted_projection_default cs transactionId :
  ¬ (1 ≤ transactionId ≤ transactionCount (run init cs)) →
  getDecryptedTransaction (run init cs) transactionId
  = ("", "", "", "", false)
  ∧ ∀ s b e p now st' effs,
      submitEncryptedTransaction (run init cs) s b e p now
      = Ok (st', effs) →
      getDecryptedTransaction st' (transactionCount st')
      = getDecryptedTransaction (run init cs) transactionId.
Proof.
  intros Hnew.
  assert (getDecryptedTransaction (run init cs) transactionId
          = ("", "", "", "", false)) as Hdef.
  { unfold getDecryptedTransaction, decryptedAt.
    destruct (decryptedTransactions (run init cs) !! transactionId)
      as [d|] eqn:Hd; [|done].
    destruct (reachable_invariant cs) as [_ Hproj].
    exfalso. apply Hnew, Hproj. by eexists. }
  split; [done|]. rewrite Hdef.
  intros s b e p now st' effs.
  unfold submitEncryptedTransaction, bind, require.
  destruct (transactionCount (run init cs) + 1 <=? uint256_max); [|done].
  intros [= <- <-]. unfold getDecryptedTransaction, decryptedAt. simpl.
  by rewrite lookup_insert_eq.
Qed.

(** C9: on a contract driven from deployment, a callback that goes through
    leaves [requestToTransactionId] as it was, so the token it consumed
    still names its record.  Presenting that token again, at once or after
    any further calls in which the oracle does not hand the same token out
    anew, with any payload and proof, gets past the "Invalid request" guard
    and reverts with "Already settled". *)
Theorem completed_token_replay cs requestId cleartexts proof st' effs :
  decryptTransaction (run init cs) requestId cleartexts proof
  = Ok (st', effs) →
  requestToTransactionId st' = requestToTransactionId (run init cs)
  ∧ (∃ transactionId,
       requestToTransactionId st' !! requestId = Some transactionId
       ∧ transactionId ≠ 0)
  ∧ ∀ cs',
      tokenUnused requestId cs' →
      requestToTransactionId (run st' cs') !! requestId
      = requestToTransactionId st' !! requestId
      ∧ ∀ cleartexts' proof',
          decryptTransaction (run st' cs') requestId cleartexts' proof'
          = Revert AlreadySettled.
Proof.
  intros Hok.
  apply decryptTransaction_ok in Hok
    as (results & r0 & r1 & r2 & r3 & Hid & _ & _ & _ & _ & _ & _ & _ & _
        & Hcnt & _ & Hreq & Hdec & _).
  pose proof (requestAt_lookup _ _ Hid) as Hlook.
  destruct (reachable_invariant cs) as [Hpend _].
  pose proof (Hpend _ _ Hlook) as Hk.
  split; [done|]. split.
  - exists (requestAt (run init cs) requestId). by rewrite Hreq.
  - intros cs' Hun.
    pose proof (pending_unused st' cs' requestId Hun) as Hsame.
    split; [done|]. intros c' p'.
    assert (requestAt (run st' cs') requestId
            = requestAt (run init cs) requestId) as Hat
      by (unfold requestAt; by rewrite Hsame, Hreq).
    apply settled_record_rejects; rewrite Hat.
    + by rewrite Hcnt.
    + unfold decryptedAt. by rewrite Hdec, lookup_insert_eq.
Qed.

(** C10: on a contract driven from deployment every identifier stored in
    [requestToTransactionId] lies in 1..transactionCount; it is therefore
    not 0, and a token reads as 0 exactly when it has no entry, which is
    what the "Invalid request" guard of the callback tests. *)
Theorem pending_targets_nonzero cs requestId :
  (∀ transactionId,
     requestToTransactionId (run init cs) !! requestId = Some transactionId →
     1 ≤ transactionId ≤ transactionCount (run init cs)
     ∧ transactionId ≠ 0)
  ∧ (requestAt (run init cs) requestId = 0
     ↔ requestToTransactionId (run init cs) !! requestId = None).
Proof.
  destruct (reachable_invariant cs) as [Hpend _].
  split.
  - intros v Hv. apply Hpend in Hv. lia.
  - unfold requestAt.
    destruct (requestToTransactionId (run init cs) !! requestId) as [v|] eqn:Hv;
      simpl; [|done].
    apply Hpend in Hv. split; [lia|done].
Qed.

End TraceProperties.

(** * The statements at concrete calls *)

Section Concrete.
Import Sim Demo.


(** Record 1 is settled under token 7; a further request and a replay of
    the callback leave its projection alone. *)
Lemma settlement_at_most_once_witness :
  isSettled (decryptedAt (run init settledCalls) 1) = true
  ∧ decryptedAt
      (run (run init settledCalls)
         [CallRequest 1 8; CallDecrypt 7 payload "ok"]) 1
    = decryptedAt (run init settledCalls) 1
  ∧ NoDup (settlements init settledCalls).*1.
Proof.
  assert (isSettled (decryptedAt (run init settledCalls) 1) = true) as Hs
    by (vm_compute; reflexivity).
  split; [exact Hs|].
  destruct (settlement_at_most_once settledCalls) as [Hnodup Hfinal].
  split; [|exact Hnodup].
  exact (proj1 (Hfinal 1 Hs [CallRequest 1 8; CallDecrypt 7 payload "ok"])).
Defined.


(** Token 99 was never handed out. *)
Lemma unknown_token_rejected_witness :
  requestToTransactionId requested !! 99 = None
  ∧ decryptTransaction requested 99 payload "ok" = Revert InvalidRequest.
Proof.
  assert (requestToTransactionId requested !! 99 = None) as Hnone
    by (vm_compute; reflexivity).
  split; [exact Hnone|].
  exact (proj1 (unknown_token_rejected requested 99 payload "ok" Hnone)).
Defined.

(** The oracle's answer for token 7 arrives with a proof that does not
    verify. *)
Lemma invalid_proof_rejected_witness :
  FHE_checkSignatures 7 payload "forged" = false
  ∧ decryptTransaction requested 7 payload "forged" = Revert ProofInvalid
  ∧ step requested (CallDecrypt 7 payload "forged") = requested.
Proof.
  assert (FHE_checkSignatures 7 payload "forged" = false) as Hbad
    by (vm_compute; reflexivity).
  split; [exact Hbad|].
  destruct (invalid_proof_rejected requested 7 payload "forged" Hbad)
    as (_ & Hsame & _ & _ & _ & Hrev).
  split; [|exact Hsame].
  apply Hrev; vm_compute; [discriminate|reflexivity].
Defined.

(** The first settlement naming "alice" creates her accumulator and leaves
    it at one unit. *)
Lemma settlement_credits_one_unit_witness :
  decryptTransaction requested 7 payload "ok"
  = Ok (settled, [TransactionDecrypted 1])
  ∧ FHE_plain (getEncryptedEnergyBySeller settled "alice") = 1
  ∧ sellerList settled = sellerList requested ++ ["alice"].
Proof.
  assert (decryptTransaction requested 7 payload "ok"
          = Ok (settled, [TransactionDecrypted 1])) as Hok
    by (vm_compute; reflexivity).
  split; [exact Hok|].
  destruct (settlement_credits_one_unit _ _ _ _ _ _ Hok) as (_ & Hacc & _).
  match type of Hacc with
  | if ?c then _ else _ =>
      assert (c = false) as Hc by (vm_compute; reflexivity);
      rewrite Hc in Hacc
  end.
  exact (proj2 Hacc).
Defined.

(** Token 7 settles record 1 and is presented again after a second record
    was submitted and requested under token 8. *)
Lemma completed_token_replay_witness :
  decryptTransaction (run init requestedCalls) 7 payload "ok"
  = Ok (settled, [TransactionDecrypted 1])
  ∧ tokenUnused 7 [CallSubmit 21 22 23 24 1001; CallRequest 2 8]
  ∧ decryptTransaction
      (run settled [CallSubmit 21 22 23 24 1001; CallRequest 2 8])
      7 payload "ok"
    = Revert AlreadySettled.
Proof.
  assert (decryptTransaction (run init requestedCalls) 7 payload "ok"
          = Ok (settled, [TransactionDecrypted 1])) as Hok
    by (vm_compute; reflexivity).
  assert (tokenUnused 7 [CallSubmit 21 22 23 24 1001; CallRequest 2 8])
    as Hun by (repeat constructor; discriminate).
  split; [exact Hok|]. split; [exact Hun|].
  destruct (completed_token_replay _ _ _ _ _ _ Hok) as (_ & _ & Hreplay).
  exact (proj2 (Hreplay _ Hun) payload "ok").
Defined.

(** Two submits with a request in between are numbered 1 and 2. *)
Lemma submit_ids_dense_witness :
  Z.of_nat (length (List.filter is_submit submits)) ≤ uint256_max
  ∧ omap submittedId (effects init submits) = [1; 2]
  ∧ transactionCount (run init submits) = 2.
Proof.
  assert (Z.of_nat (length (List.filter is_submit submits)) ≤ uint256_max)
    as Hbound by (vm_compute; discriminate).
  split; [exact Hbound|].
  destruct (submit_ids_dense submits Hbound) as (Hids & Hcount & _).
  split; [exact Hids | exact Hcount].
Defined.

(** With two records submitted, identifier 5 reads as the empty
    projection. *)
Lemma unsubmitted_projection_default_witness :
  ¬ (1 ≤ 5 ≤ transactionCount (run init submits))
  ∧ getDecryptedTransaction (run init submits) 5 = ("", "", "", "", false).
Proof.
  assert (¬ (1 ≤ 5 ≤ transactionCount (run init submits))) as Hnew.
  { change (transactionCount (run init submits)) with 2. lia. }
  split; [exact Hnew|].
  exact (proj1 (unsubmitted_projection_default submits 5 Hnew)).
Defined.

(** The one request of the run left token 7 naming record 1. *)
Lemma pending_targets_nonzero_witness :
  requestToTransactionId (run init submits) !! 7 = Some 1
  ∧ 1 ≤ 1 ≤ transactionCount (run init submits)
  ∧ 1 ≠ 0.
Proof.
  assert (requestToTransactionId (run init submits) !! 7 = Some 1) as Hlook
    by (vm_compute; reflexivity).
  split; [exact Hlook|].
  exact (proj1 (pending_targets_nonzero submits 7) 1 Hlook).
Defined.

End Concrete.

(** * Further properties of the contract *)

Section RecordStore.
Context `{FHE : FHECapability}.

(** [submitEncryptedTransaction] goes through exactly when the counter is
    below the largest [uint256], whatever the handles and the timestamp; at
    the limit it reverts with the overflow panic and changes nothing.  When
    it goes through, the record read back under the new identifier carries
    that identifier, the four handles and the timestamp, and no other
    record, no other projection, no pending request, no accumulator and no
    seller-list entry is touched. *)
Theorem submit_stores_record st s b e p now :
  let newId := transactionCount st + 1 in
  let st' := step st (CallSubmit s b e p now) in
  (transactionCount st < uint256_max →
   submitEncryptedTransaction st s b e p now
   = Ok (st', [TransactionSubmitted newId now])
   ∧ transactionCount st' = newId
   ∧ encryptedAt st' newId
     = {| id := newId; encryptedSellerId := s; encryptedBuyerId := b;
          encryptedEnergyAmount := e; encryptedPrice := p;
          timestamp := now |}
   ∧ (∀ k, k ≠ newId →
        encryptedAt st' k = encryptedAt st k
        ∧ decryptedAt st' k = decryptedAt st k)
   ∧ requestToTransactionId st' = requestToTransactionId st
   ∧ encryptedEnergyBySeller st' = encryptedEnergyBySeller st
   ∧ sellerList st' = sellerList st)
  ∧ (uint256_max ≤ transactionCount st →
     submitEncryptedTransaction st s b e p now = Revert ArithmeticOverflow
     ∧ st' = st).
Proof.
  simpl. unfold step. simpl.
  unfold submitEncryptedTransaction, bind, require. split.
  - intros Hlt.
    assert ((transactionCount st + 1 <=? uint256_max) = true) as ->
      by (apply Z.leb_le; lia).
    simpl. repeat split; try done.
    + unfold encryptedAt. simpl. by rewrite lookup_insert_eq.
    + unfold encryptedAt. simpl. by rewrite lookup_insert_ne.
    + unfold decryptedAt. simpl. by rewrite lookup_insert_ne.
  - intros Hge.
    assert ((transactionCount st + 1 <=? uint256_max) = false) as ->
      by (apply Z.leb_gt; lia).
    done.
Qed.

Lemma encryptedAt_kept st cs k :
  k ≤ transactionCount st →
  encryptedAt (run st cs) k = encryptedAt st k.
Proof.
  revert st. induction cs as [|c cs IH]; intros st Hk; [done|].
  simpl. pose proof (transactionCount_step st c) as Hmono.
  rewrite IH by lia.
  destruct (encrypted_step st c)
    as [[_ Henc]|(s & b & e & p & now & _ & _ & _ & Henc)];
    unfold encryptedAt; rewrite Henc; [done|].
  by rewrite lookup_insert_ne by lia.
Qed.

Lemma recordCiphertexts_kept st cs k :
  k ≤ transactionCount st →
  recordCiphertexts (run st cs) k = recordCiphertexts st k.
Proof. intros Hk. unfold recordCiphertexts. by rewrite encryptedAt_kept. Qed.

(** The table of encrypted records is append-only: a record stored under an
    identifier up to the counter is never written again, whatever is called
    afterwards. *)
Theorem encrypted_record_immutable st cs k :
  k ≤ transactionCount st →
  encryptedAt (run st cs) k = encryptedAt st k.
Proof.
  revert st. induction cs as [|c cs IH]; intros st Hk; [done|].
  simpl. pose proof (transactionCount_step st c) as Hmono.
  rewrite IH by lia.
  destruct (encrypted_step st c)
    as [[_ Henc]|(s & b & e & p & now & _ & _ & _ & Henc)];
    unfold encryptedAt; rewrite Henc; [done|].
  by rewrite lookup_insert_ne by lia.
Qed.

(** On a contract driven from deployment, the encrypted records are exactly
    those under the identifiers 1..transactionCount, each carrying its own
    identifier; every other identifier reads as the all-zero record. *)
Theorem encrypted_records_dense cs k :
  let st := run init cs in
  0 ≤ transactionCount st
  ∧ (1 ≤ k ≤ transactionCount st →
     is_Some (encryptedTransactions st !! k) ∧ id (encryptedAt st k) = k)
  ∧ (¬ (1 ≤ k ≤ transactionCount st) →
     encryptedTransactions st !! k = None
     ∧ encryptedAt st k = zeroEncrypted).
Proof.
  simpl. induction cs as [|c cs IH] using rev_ind.
  { simpl. split; [done|]. split; [lia|].
    intros _. unfold encryptedAt. simpl. by rewrite lookup_empty. }
  rewrite run_snoc. destruct IH as (Hpos & Hin & Hout).
  destruct (encrypted_step (run init cs) c)
    as [[Hcnt Henc]|(s & b & e & p & now & _ & _ & Hcnt & Henc)];
    unfold encryptedAt in *; rewrite Hcnt, Henc.
  - done.
  - split; [lia|].
    destruct (decide (k = transactionCount (run init cs) + 1)) as [->|Hne].
    + rewrite lookup_insert_eq. simpl. split; [by split; [eexists|]|lia].
    + rewrite lookup_insert_ne by done. split.
      * intros Hk. apply Hin. lia.
      * intros Hk. apply Hout. lia.
Qed.

(** A settlement request for a submitted record that is not settled by
    then depends on the four handles the record was submitted with, however
    many calls were made in between: if the contract is allowed on all of
    them, the request goes through and hands the oracle these handles,
    seller, buyer, amount and price in this order; if it is not allowed on
    one of them, the request reverts inside the library. *)
Theorem oracle_receives_submitted_handles st s b e p now st' effs cs reqId :
  submitEncryptedTransaction st s b e p now = Ok (st', effs) →
  isSettled (decryptedAt (run st' cs) (transactionCount st')) = false →
  requestTransactionDecryption (run st' cs) (transactionCount st') reqId
  = if forallb FHE_isAllowed [s; b; e; p]
    then Ok (write_request reqId (transactionCount st') (run st' cs),
             [OracleRequest [s; b; e; p];
              DecryptionRequested (transactionCount st')])
    else Revert SenderNotAllowed.
Proof.
  intros Hsub Hs.
  assert (recordCiphertexts (run st' cs) (transactionCount st')
          = [s; b; e; p]) as Hcts.
  { rewrite recordCiphertexts_kept by lia.
    revert Hsub. unfold submitEncryptedTransaction, bind, require.
    destruct (transactionCount st + 1 <=? uint256_max); [|done].
    intros [= <- <-]. unfold recordCiphertexts, encryptedAt. simpl.
    by rewrite lookup_insert_eq. }
  destruct (forallb FHE_isAllowed [s; b; e; p]) eqn:Hacl.
  - rewrite request_unsettled by (by rewrite ?Hcts). by rewrite Hcts.
  - apply request_refused; [done|]. by rewrite Hcts.
Qed.

End RecordStore.

Section SettlementCoordinator.
Context `{FHE : FHECapability}.

(** The callback goes through exactly when the token names a nonzero
    identifier, the projection under it is unsettled, the proof verifies,
    the payload decodes to at least four strings, and the library lets the
    contract add to the accumulator of the seller named first: the seller
    has none yet, or the contract is allowed on the stored one.  With the
    first three met, a payload that does not decode reverts the call as a
    decoding failure, one that decodes to fewer than four strings reverts it
    with the index panic, and one whose seller has an accumulator the
    contract may not use reverts it inside [FHE.add]; in all three cases
    nothing is written, not even the projection that the code assigns
    before it touches the accumulator. *)
Theorem callback_success_criterion st requestId cleartexts proof :
  (succeeds (decryptTransaction st requestId cleartexts proof) = true
   ↔ requestAt st requestId ≠ 0
     ∧ isSettled (decryptedAt st (requestAt st requestId)) = false
     ∧ FHE_checkSignatures requestId cleartexts proof = true
     ∧ ∃ results r0,
         abi_decode cleartexts = Some results
         ∧ (4 ≤ length results)%nat
         ∧ results !! 0%nat = Some r0
         ∧ accumulatorUsable st r0 = true)
  ∧ (requestAt st requestId ≠ 0 →
     isSettled (decryptedAt st (requestAt st requestId)) = false →
     FHE_checkSignatures requestId cleartexts proof = true →
     (abi_decode cleartexts = None →
      decryptTransaction st requestId cleartexts proof
      = Revert DecodeFailure
      ∧ step st (CallDecrypt requestId cleartexts proof) = st)
     ∧ (∀ results,
          abi_decode cleartexts = Some results →
          (length results < 4)%nat →
          decryptTransaction st requestId cleartexts proof
          = Revert IndexOutOfBounds
          ∧ step st (CallDecrypt requestId cleartexts proof) = st)
     ∧ (∀ results r0,
          abi_decode cleartexts = Some results →
          (4 ≤ length results)%nat →
          results !! 0%nat = Some r0 →
          accumulatorUsable st r0 = false →
          decryptTransaction st requestId cleartexts proof
          = Revert ACLNotAllowed
          ∧ step st (CallDecrypt requestId cleartexts proof) = st)).
Proof.
  assert (∀ results r0,
            requestAt st requestId ≠ 0 →
            isSettled (decryptedAt st (requestAt st requestId)) = false →
            FHE_checkSignatures requestId cleartexts proof = true →
            abi_decode cleartexts = Some results →
            (4 ≤ length results)%nat →
            results !! 0%nat = Some r0 →
            if accumulatorUsable st r0
            then succeeds (decryptTransaction st requestId cleartexts proof)
                 = true
            else decryptTransaction st requestId cleartexts proof
                 = Revert ACLNotAllowed) as Hadd.
  { intros results r0 Hid Hs Hp Hd Hlen H0.
    destruct results as [|x0 [|x1 [|x2 [|x3 rest]]]]; simpl in Hlen; try lia.
    injection H0 as ->.
    by apply (decryptTransaction_add st requestId cleartexts proof
                (r0 :: x1 :: x2 :: x3 :: rest) r0 x1 x2 x3). }
  split; [split|].
  - destruct (decryptTransaction st requestId cleartexts proof)
      as [[st' effs]|e] eqn:Hex; [|done].
    intros _. pose proof (decryptTransaction_usable _ _ _ _ _ _ Hex)
      as (results' & r0' & Hd' & H0' & Huse).
    apply decryptTransaction_ok in Hex
      as (results & r0 & r1 & r2 & r3 & Hid & Hs & Hp & Hd & _ & _ & _ & H3
          & _).
    repeat split; try done. exists results, r0'.
    rewrite Hd in Hd'. injection Hd' as <-.
    repeat split; try done.
    apply lookup_lt_Some in H3. lia.
  - intros (Hid & Hs & Hp & results & r0 & Hd & Hlen & H0 & Huse).
    specialize (Hadd results r0 Hid Hs Hp Hd Hlen H0).
    by rewrite Huse in Hadd.
  - intros Hid Hs Hp. pose proof Hid as Hid'.
    apply Z.eqb_neq in Hid. split; [|split].
    + intros Hd.
      assert (decryptTransaction st requestId cleartexts proof
              = Revert DecodeFailure) as Hrev.
      { unfold decryptTransaction, bind, require, fromOption.
        by rewrite Hid, Hs, Hp, Hd. }
      split; [done|].
      by apply (step_revert _ (CallDecrypt requestId cleartexts proof)
                  DecodeFailure).
    + intros results Hd Hlen.
      assert (decryptTransaction st requestId cleartexts proof
              = Revert IndexOutOfBounds) as Hrev.
      { unfold decryptTransaction, bind, require, fromOption.
        rewrite Hid, Hs, Hp, Hd. simpl.
        destruct results as [|r0 [|r1 [|r2 [|r3 rest]]]]; simpl in *;
          try done. lia. }
      split; [done|].
      by apply (step_revert _ (CallDecrypt requestId cleartexts proof)
                  IndexOutOfBounds).
    + intros results r0 Hd Hlen H0 Huse.
      specialize (Hadd results r0 Hid' Hs Hp Hd Hlen H0).
      rewrite Huse in Hadd. split; [done|].
      by apply (step_revert _ (CallDecrypt requestId cleartexts proof)
                  ACLNotAllowed).
Qed.

(** A callback that goes through writes the first four decoded strings,
    in the order seller, buyer, amount, price, into the projection of the
    record its token names and marks it settled, which is what
    [getDecryptedTransaction] then returns for that record; strings after
    the fourth are dropped.  Every other projection, every encrypted record,
    the counter and the pending requests stay as they were. *)
Theorem settlement_writes_projection st requestId cleartexts proof st' effs :
  decryptTransaction st requestId cleartexts proof = Ok (st', effs) →
  ∃ r0 r1 r2 r3 rest,
    abi_decode cleartexts = Some (r0 :: r1 :: r2 :: r3 :: rest)
    ∧ getDecryptedTransaction st' (requestAt st requestId)
      = (r0, r1, r2, r3, true)
    ∧ (∀ k, k ≠ requestAt st requestId →
         getDecryptedTransaction st' k = getDecryptedTransaction st k)
    ∧ encryptedTransactions st' = encryptedTransactions st
    ∧ transactionCount st' = transactionCount st
    ∧ requestToTransactionId st' = requestToTransactionId st
    ∧ effs = [TransactionDecrypted (requestAt st requestId)].
Proof.
  intros Hex. apply decryptTransaction_ok in Hex
    as (results & r0 & r1 & r2 & r3 & _ & _ & _ & Hd & H0 & H1 & H2 & H3
        & Heffs & Hcnt & Henc & Hreq & Hdec & _).
  destruct results as [|x0 [|x1 [|x2 [|x3 rest]]]]; try done.
  simpl in H0, H1, H2, H3.
  injection H0 as ->. injection H1 as ->.
  injection H2 as ->. injection H3 as ->.
  exists r0, r1, r2, r3, rest. repeat split; try done.
  - unfold getDecryptedTransaction, decryptedAt.
    by rewrite Hdec, lookup_insert_eq.
  - intros k Hne. unfold getDecryptedTransaction, decryptedAt.
    by rewrite Hdec, lookup_insert_ne.
Qed.

(** Every [TransactionDecrypted] event announces a settlement, and every
    settlement is announced: along any run the identifiers of these events
    are, in order, the records the callbacks settled. *)
Theorem decrypted_events_are_settlements st cs :
  omap decryptedId (effects st cs) = (settlements st cs).*1.
Proof.
  revert st. induction cs as [|c cs IH]; intros st; [done|].
  simpl. rewrite omap_app, fmap_app, IH. f_equal.
  destruct c as [s b e p now|transactionId reqId|requestId cleartexts proof];
    simpl.
  - unfold submitEncryptedTransaction, bind, require.
    by destruct (transactionCount st + 1 <=? uint256_max).
  - destruct (requestTransactionDecryption st transactionId reqId)
      as [[st' effs]|e] eqn:Hex; [|done].
    by apply request_ok in Hex as (_ & _ & _ & ->).
  - destruct (decryptTransaction st requestId cleartexts proof)
      as [[st' effs]|e] eqn:Hex; [|done].
    simpl. apply decryptTransaction_ok in Hex
      as (?&?&?&?&?&?&?&?&?&?&?&?&?&->&?). done.
Qed.

(** What a call does to the pending-request table. *)
Lemma pending_step st c :
  requestToTransactionId (step st c) = requestToTransactionId st
  ∨ ∃ transactionId reqId,
      c = CallRequest transactionId reqId
      ∧ requestToTransactionId (step st c)
        = <[reqId := transactionId]> (requestToTransactionId st).
Proof.
  destruct (step_kind st c)
    as [e _ ->|s b e p now _ _ _ _ _ _ _ ->
       |transactionId reqId effs -> _ _ _ ->
       |requestId cleartexts proof effs _ _ _ _ ->]; try by left.
  right. by exists transactionId, reqId.
Qed.

(** No call deletes a pending request: a token that has an entry keeps
    one for ever, also after the callback that used it, and the entry of a
    token changes only when the oracle hands the same token out again. *)
Theorem pending_entries_persist st cs requestId :
  (is_Some (requestToTransactionId st !! requestId) →
   is_Some (requestToTransactionId (run st cs) !! requestId))
  ∧ (tokenUnused requestId cs →
     requestToTransactionId (run st cs) !! requestId
     = requestToTransactionId st !! requestId).
Proof.
  revert st. induction cs as [|c cs IH]; intros st; [done|].
  simpl. destruct (IH (step st c)) as [IHsome IHsame]. split.
  - intros Hsome. apply IHsome.
    destruct (pending_step st c) as [->|(tid & reqId & _ & ->)]; [done|].
    destruct (decide (reqId = requestId)) as [->|Hne].
    + rewrite lookup_insert_eq. by eexists.
    + by rewrite lookup_insert_ne.
  - intros Hun. apply Forall_cons in Hun as [Hc Hun].
    rewrite IHsame by done.
    destruct (pending_step st c) as [->|(tid & reqId & -> & ->)]; [done|].
    by rewrite lookup_insert_ne.
Qed.

(** On a contract driven from deployment every pending request names a
    record whose four handles the contract is allowed on, none of them the
    uninitialised handle: the library lets no other request through, and
    the handles of a record never change. *)
Theorem pending_requests_name_permitted_records cs requestId transactionId :
  requestToTransactionId (run init cs) !! requestId = Some transactionId →
  forallb FHE_isAllowed (recordCiphertexts (run init cs) transactionId)
  = true
  ∧ Forall (λ h, h ≠ uninitialized)
      (recordCiphertexts (run init cs) transactionId).
Proof.
  assert (∀ r v,
            requestToTransactionId (run init cs) !! r = Some v →
            forallb FHE_isAllowed (recordCiphertexts (run init cs) v)
            = true) as Hinv.
  { induction cs as [|c cs IH] using rev_ind.
    { intros r v. simpl. by rewrite lookup_empty. }
    intros r v. rewrite run_snoc.
    destruct (reachable_invariant cs) as [Hpend _].
    assert (∀ k, k ≤ transactionCount (run init cs) →
                 recordCiphertexts (step (run init cs) c) k
                 = recordCiphertexts (run init cs) k) as Hkept
      by (intros k Hk; by apply (recordCiphertexts_kept _ [c])).
    destruct (step_kind (run init cs) c)
      as [e _ Hst|s b e p now _ _ _ _ _ _ _ Hreq
         |tid reqId effs -> _ Hex _ Hst
         |? ? ? effs _ _ _ _ Hreq].
    - rewrite Hst. apply IH.
    - rewrite Hreq. intros Hv.
      rewrite Hkept by (apply Hpend in Hv; lia). by eapply IH.
    - simpl in Hex. apply request_ok in Hex as (_ & Hacl & _ & _).
      pose proof (allowed_record_stored _ _ Hacl) as Hstored.
      destruct (encrypted_domain cs) as [_ Henc]. apply Henc in Hstored.
      intros Hv. rewrite Hst in Hv. simpl in Hv.
      destruct (decide (r = reqId)) as [->|Hne].
      + rewrite lookup_insert_eq in Hv. injection Hv as <-.
        by rewrite Hkept by lia.
      + rewrite lookup_insert_ne in Hv by done.
        rewrite Hkept by (apply Hpend in Hv; lia). by eapply IH.
    - rewrite Hreq. intros Hv.
      rewrite Hkept by (apply Hpend in Hv; lia). by eapply IH. }
  intros Hv. specialize (Hinv _ _ Hv). split; [done|].
  apply Forall_forall. intros h Hin ->.
  apply list_elem_of_In in Hin.
  pose proof (proj1 (forallb_forall _ _) Hinv _ Hin) as Hzero.
  by rewrite isAllowed_uninitialized in Hzero.
Qed.

(** A record that exists when it is settled stays as the settlement left
    it: whatever is called afterwards, its projection is unchanged, every
    further settlement request for it and every callback whose token names
    it reverts with "Already settled", and no callback settles it again. *)
Theorem existing_record_settlement_final st cs transactionId :
  1 ≤ transactionId ≤ transactionCount st →
  isSettled (decryptedAt st transactionId) = true →
  getDecryptedTransaction (run st cs) transactionId
  = getDecryptedTransaction st transactionId
  ∧ (∀ reqId,
       requestTransactionDecryption (run st cs) transactionId reqId
       = Revert AlreadySettled)
  ∧ (∀ requestId cleartexts proof,
       requestAt (run st cs) requestId = transactionId →
       decryptTransaction (run st cs) requestId cleartexts proof
       = Revert AlreadySettled)
  ∧ transactionId ∉ (settlements st cs).*1.
Proof.
  intros Hex Hs.
  pose proof (settled_record_frozen st cs transactionId Hex Hs) as Hfr.
  repeat split.
  - unfold getDecryptedTransaction. by rewrite Hfr.
  - intros reqId. unfold requestTransactionDecryption, bind, require.
    by rewrite Hfr, Hs.
  - intros requestId cleartexts proof <-.
    by apply settled_record_rejects.
  - by apply settled_record_not_resettled.
Qed.

End SettlementCoordinator.

Section Invariants.
Context `{FHE : FHECapability}.

(** On a contract driven from deployment a projection is never half
    written: as long as its settled flag is clear, all four of its strings
    are empty. *)
Theorem unsettled_projection_is_empty cs k :
  isSettled (decryptedAt (run init cs) k) = false →
  getDecryptedTransaction (run init cs) k = ("", "", "", "", false).
Proof.
  assert (isSettled (decryptedAt (run init cs) k) = false →
          decryptedAt (run init cs) k = emptyDecrypted) as Hinv.
  { induction cs as [|c cs IH] using rev_ind; [done|].
    rewrite run_snoc.
    destruct (step_kind (run init cs) c)
      as [e _ ->|s b e p now _ _ _ _ Hdec _ _ _
         |transactionId reqId effs _ _ _ _ ->
         |requestId cleartexts proof effs _ Hex _ _ _]; try done.
    - unfold decryptedAt at 1 2. rewrite Hdec.
      destruct (decide (k = transactionCount (run init cs) + 1)) as [->|Hne].
      + by rewrite lookup_insert_eq.
      + rewrite lookup_insert_ne by done. apply IH.
    - apply decryptTransaction_ok in Hex
        as (results & r0 & r1 & r2 & r3 & _ & _ & _ & _ & _ & _ & _ & _ & _
            & _ & _ & _ & Hdec & _).
      unfold decryptedAt at 1 2. rewrite Hdec.
      destruct (decide (k = requestAt (run init cs) requestId)) as [->|Hne].
      + by rewrite lookup_insert_eq.
      + rewrite lookup_insert_ne by done. apply IH. }
  intros Hs. unfold getDecryptedTransaction. by rewrite (Hinv Hs).
Qed.

(** On a contract driven from deployment every settled projection is the
    one a callback of the history wrote under that identifier, and the
    seller it names is in the seller list with an initialised
    accumulator. *)
Theorem settled_projection_provenance cs k :
  let st := run init cs in
  isSettled (decryptedAt st k) = true →
  (k, decryptedAt st k) ∈ settlements init cs
  ∧ sellerId (decryptedAt st k) ∈ sellerList st
  ∧ knownSeller st (sellerId (decryptedAt st k)) = true.
Proof.
  simpl.
  assert (isSettled (decryptedAt (run init cs) k) = true →
          (k, decryptedAt (run init cs) k) ∈ settlements init cs) as Hinv.
  { induction cs as [|c cs IH] using rev_ind; [done|].
    rewrite run_snoc, settlements_snoc, elem_of_app.
    destruct (step_kind (run init cs) c)
      as [e _ ->|s b e p now _ _ _ _ Hdec _ _ _
         |transactionId reqId effs _ _ _ _ ->
         |requestId cleartexts proof effs -> Hex _ _ _].
    - intros ?%IH. by left.
    - unfold decryptedAt at 1 2. rewrite Hdec.
      destruct (decide (k = transactionCount (run init cs) + 1)) as [->|Hne].
      + by rewrite lookup_insert_eq.
      + rewrite lookup_insert_ne by done. intros ?%IH. by left.
    - intros ?%IH. by left.
    - rewrite (settlementOf_decrypt _ _ _ _ _ _ Hex). simpl.
      rewrite list_elem_of_singleton.
      destruct (decide (k = requestAt (run init cs) requestId)) as [->|Hne];
        [by right|].
      apply decryptTransaction_ok in Hex
        as (results & r0 & r1 & r2 & r3 & _ & _ & _ & _ & _ & _ & _ & _ & _
            & _ & _ & _ & Hdec & _).
      unfold decryptedAt at 1 2. rewrite Hdec, lookup_insert_ne by done.
      intros ?%IH. by left. }
  intros Hs. specialize (Hinv Hs).
  destruct (sellers_invariant cs) as (Hdom & Hinit & _ & Hhist).
  simpl in Hdom, Hinit, Hhist.
  assert (sellerId (decryptedAt (run init cs) k) ∈ sellerList (run init cs))
    as Hin.
  { apply Hhist, list_elem_of_fmap.
    by exists (k, decryptedAt (run init cs) k). }
  split; [done|]. split; [done|].
  apply Hdom in Hin as [h Hh].
  unfold knownSeller, getEncryptedEnergyBySeller, energyAt. rewrite Hh.
  by eapply Hinit.
Qed.

(** The accumulators count settlements. *)
Lemma accumulators_count cs seller :
  match encryptedEnergyBySeller (run init cs) !! seller with
  | Some h =>
      FHE_plain h = Z.of_nat (settledCount init cs seller) mod 2 ^ 32
      ∧ (0 < settledCount init cs seller)%nat
  | None => settledCount init cs seller = 0%nat
  end.
Proof.
  induction cs as [|c cs IH] using rev_ind.
  { simpl. by rewrite lookup_empty. }
  unfold settledCount in *.
  rewrite run_snoc, settlements_snoc, filter_app, length_app.
  destruct (settlementOf (run init cs) c) as [[tid d]|] eqn:Hset.
  - destruct c as [| |requestId cleartexts proof]; try done.
    destruct (decryptTransaction (run init cs) requestId cleartexts proof)
      as [[st' effs]|e] eqn:Hex;
      [|by rewrite (settlementOf_revert _ _ e) in Hset].
    rewrite (settlementOf_decrypt _ _ _ _ _ _ Hex) in Hset.
    injection Hset as <- <-.
    rewrite (step_ok _ (CallDecrypt requestId cleartexts proof) _ _ Hex).
    apply decryptTransaction_ok in Hex
      as (results & r0 & r1 & r2 & r3 & _ & _ & _ & _ & _ & _ & _ & _ & _
          & _ & _ & _ & Hdec & Henc & _).
    assert (sellerId (decryptedAt st' (requestAt (run init cs) requestId))
            = r0) as Hseller
      by (unfold decryptedAt; by rewrite Hdec, lookup_insert_eq).
    rewrite Henc. simpl.
    destruct (decide (seller = r0)) as [->|Hne].
    + rewrite lookup_insert_eq, filter_cons_True by done. simpl.
      rewrite plain_add, plain_asEuint32.
      split; [|lia].
      rewrite Nat2Z.inj_add. simpl Z.of_nat.
      unfold accumulatorBase, energyAt.
      destruct (sellers_invariant cs) as (_ & Hinit & _). simpl in Hinit.
      destruct (encryptedEnergyBySeller (run init cs) !! r0) as [h|] eqn:Hh;
        simpl.
      * rewrite (Hinit _ _ Hh). destruct IH as [-> _].
        by rewrite <- Z.add_mod by lia.
      * rewrite isInitialized_uninitialized, plain_asEuint32, IH.
        by rewrite <- Z.add_mod by lia.
    + rewrite lookup_insert_ne by done.
      rewrite filter_cons_False by (simpl; rewrite Hseller; congruence).
      simpl. by rewrite Nat.add_0_r.
  - destruct (sellers_frame _ _ Hset) as [_ ->]. simpl.
    by rewrite Nat.add_0_r.
Qed.

(** On a contract driven from deployment, the accumulator of a listed
    seller decrypts to the number of settlements that named the seller,
    modulo 2^32, and that number is positive; for any other string the
    getter returns the uninitialised handle and there was no such
    settlement. *)
Theorem accumulator_counts_settlements cs seller :
  let st := run init cs in
  let n := settledCount init cs seller in
  (seller ∈ sellerList st →
   FHE_plain (getEncryptedEnergyBySeller st seller) = Z.of_nat n mod 2 ^ 32
   ∧ (0 < n)%nat)
  ∧ (seller ∉ sellerList st →
     getEncryptedEnergyBySeller st seller = uninitialized ∧ n = 0%nat).
Proof.
  simpl. pose proof (accumulators_count cs seller) as Hacc.
  destruct (sellers_invariant cs) as (Hdom & _). simpl in Hdom.
  unfold getEncryptedEnergyBySeller, energyAt. split.
  - intros [h Hh]%Hdom. by rewrite Hh in *.
  - intros Hnot.
    destruct (encryptedEnergyBySeller (run init cs) !! seller) as [h|] eqn:Hh;
      [|done].
    exfalso. apply Hnot, Hdom. by eexists.
Qed.

End Invariants.

Section Lifecycle.
Context `{FHE : FHECapability}.

(** On a contract driven from deployment, once a callback has settled a
    record the record is closed for good and for every token that names it,
    not only the one just used: after any further calls, a callback under
    any such token, with any payload and proof, and any new settlement
    request for the record revert with "Already settled". *)
Theorem first_callback_wins cs requestId cleartexts proof st' effs :
  decryptTransaction (run init cs) requestId cleartexts proof
  = Ok (st', effs) →
  ∀ cs',
    (∀ requestId' cleartexts' proof',
       requestAt (run st' cs') requestId'
       = requestAt (run init cs) requestId →
       decryptTransaction (run st' cs') requestId' cleartexts' proof'
       = Revert AlreadySettled)
    ∧ ∀ reqId,
        requestTransactionDecryption (run st' cs')
          (requestAt (run init cs) requestId) reqId
        = Revert AlreadySettled.
Proof.
  intros Hex cs'. apply decryptTransaction_ok in Hex
    as (results & r0 & r1 & r2 & r3 & Hid & _ & _ & _ & _ & _ & _ & _ & _
        & Hcnt & _ & _ & Hdec & _).
  assert (isSettled (decryptedAt st' (requestAt (run init cs) requestId))
          = true) as Hs
    by (unfold decryptedAt; by rewrite Hdec, lookup_insert_eq).
  destruct (reachable_invariant cs) as [Hpend _].
  pose proof (Hpend _ _ (requestAt_lookup _ _ Hid)) as Hk.
  rewrite <- Hcnt in Hk. split.
  - intros requestId' c' p' Hsame.
    apply settled_record_rejects; by rewrite Hsame.
  - intros reqId. apply request_settled.
    by rewrite settled_record_frozen.
Qed.

(** The whole lifecycle goes through from any state whose counter is below
    the limit, provided the library lets it: submit a record with handles
    the contract is allowed on, request its settlement, and answer under the
    token with a proof that verifies and a payload of at least four strings
    whose seller has no accumulator yet or one the contract may use.  The
    three calls succeed, the events are the submission, the oracle request
    with the submitted handles, the request and the decryption, and the new
    record ends up settled with the first four strings, its seller holding
    an initialised accumulator. *)
Theorem lifecycle_settles st s b e p now reqId cleartexts proof
    r0 r1 r2 r3 rest :
  0 ≤ transactionCount st < uint256_max →
  forallb FHE_isAllowed [s; b; e; p] = true →
  FHE_checkSignatures reqId cleartexts proof = true →
  abi_decode cleartexts = Some (r0 :: r1 :: r2 :: r3 :: rest) →
  accumulatorUsable st r0 = true →
  let newId := transactionCount st + 1 in
  let cs := [CallSubmit s b e p now; CallRequest newId reqId;
             CallDecrypt reqId cleartexts proof] in
  allSucceed st cs = true
  ∧ effects st cs
    = [TransactionSubmitted newId now; OracleRequest [s; b; e; p];
       DecryptionRequested newId; TransactionDecrypted newId]
  ∧ getDecryptedTransaction (run st cs) newId = (r0, r1, r2, r3, true)
  ∧ knownSeller (run st cs) r0 = true.
Proof.
  intros Hcnt Hacl Hp Hd Huse. simpl.
  set (newId := transactionCount st + 1).
  set (st1 := step st (CallSubmit s b e p now)).
  assert (submitEncryptedTransaction st s b e p now
          = Ok (st1, [TransactionSubmitted newId now])
          ∧ decryptedAt st1 newId = emptyDecrypted
          ∧ recordCiphertexts st1 newId = [s; b; e; p]
          ∧ encryptedEnergyBySeller st1 = encryptedEnergyBySeller st)
    as (Hsub & Hempty & Hcts & Henergy).
  { subst st1 newId. unfold step. simpl.
    unfold submitEncryptedTransaction, bind, require.
    assert ((transactionCount st + 1 <=? uint256_max) = true) as ->
      by (apply Z.leb_le; lia).
    simpl. unfold recordCiphertexts, decryptedAt, encryptedAt. simpl.
    by rewrite !lookup_insert_eq. }
  rewrite Hsub. simpl.
  assert (isSettled (decryptedAt st1 newId) = false) as Hs1
    by (by rewrite Hempty).
  assert (forallb FHE_isAllowed (recordCiphertexts st1 newId) = true)
    as Hacl1 by (by rewrite Hcts).
  pose proof (request_unsettled st1 newId reqId Hs1 Hacl1) as Hreq.
  rewrite Hcts in Hreq.
  set (st2 := write_request reqId newId st1) in *.
  assert (step st1 (CallRequest newId reqId) = st2) as ->
    by (by eapply step_ok).
  rewrite Hreq. simpl.
  assert (requestAt st2 reqId = newId) as Hat
    by (subst st2; unfold requestAt; simpl; by rewrite lookup_insert_eq).
  assert (requestAt st2 reqId ≠ 0) as Hid by (rewrite Hat; subst newId; lia).
  assert (isSettled (decryptedAt st2 (requestAt st2 reqId)) = false) as Hs2
    by (by rewrite Hat).
  assert (accumulatorUsable st2 r0 = true) as Huse2.
  { unfold accumulatorUsable, energyAt in *. subst st2. simpl.
    by rewrite Henergy. }
  pose proof (decryptTransaction_add st2 reqId cleartexts proof
                (r0 :: r1 :: r2 :: r3 :: rest) r0 r1 r2 r3 Hid Hs2 Hp Hd
                eq_refl eq_refl eq_refl eq_refl) as Hadd.
  rewrite Huse2 in Hadd.
  destruct (decryptTransaction st2 reqId cleartexts proof)
    as [[st3 effs]|err] eqn:Hex; [|done].
  rewrite (step_ok _ (CallDecrypt reqId cleartexts proof) _ _ Hex).
  apply decryptTransaction_ok in Hex
    as (results & x0 & x1 & x2 & x3 & _ & _ & _ & Hd' & H0 & H1 & H2 & H3
        & -> & _ & _ & _ & Hdec & Henc & _).
  rewrite Hd in Hd'. injection Hd' as <-. simpl in H0, H1, H2, H3.
  injection H0 as <-. injection H1 as <-.
  injection H2 as <-. injection H3 as <-.
  rewrite Hat in *. repeat split; try done.
  - unfold getDecryptedTransaction, decryptedAt.
    by rewrite Hdec, lookup_insert_eq.
  - unfold knownSeller, getEncryptedEnergyBySeller, energyAt.
    rewrite Henc, lookup_insert_eq. simpl. apply isInitialized_add.
Qed.

End Lifecycle.

(** * The further properties at concrete calls *)

Section FurtherConcrete.
Import Sim Demo.

(** A second record is stored next to the first; on a full counter the
    submit is refused. *)
Lemma submit_stores_record_witness :
  transactionCount requested < uint256_max
  ∧ encryptedAt (step requested (CallSubmit 21 22 23 24 1001)) 2
    = {| id := 2; encryptedSellerId := 21; encryptedBuyerId := 22;
         encryptedEnergyAmount := 23; encryptedPrice := 24;
         timestamp := 1001 |}
  ∧ uint256_max ≤ transactionCount full
  ∧ submitEncryptedTransaction full 21 22 23 24 1001
    = Revert ArithmeticOverflow.
Proof.
  assert (transactionCount requested < uint256_max) as Hlt
    by (vm_compute; reflexivity).
  assert (uint256_max ≤ transactionCount full) as Hge
    by (vm_compute; discriminate).
  split; [exact Hlt|].
  destruct (submit_stores_record requested 21 22 23 24 1001) as [Hok _].
  destruct (submit_stores_record full 21 22 23 24 1001) as [_ Hrev].
  split; [exact (proj1 (proj2 (proj2 (Hok Hlt))))|].
  split; [exact Hge | exact (proj1 (Hrev Hge))].
Defined.

(** Record 1 is the same after a second submit and its own settlement. *)
Lemma encrypted_record_immutable_witness :
  1 ≤ transactionCount requested
  ∧ encryptedAt
      (run requested [CallSubmit 21 22 23 24 1001; CallDecrypt 7 payload "ok"])
      1
    = encryptedAt requested 1.
Proof.
  assert (1 ≤ transactionCount requested) as Hk
    by (vm_compute; discriminate).
  split; [exact Hk|]. exact (encrypted_record_immutable requested _ 1 Hk).
Defined.

(** After two submits record 2 is stored and identifier 5 is not. *)
Lemma encrypted_records_dense_witness :
  1 ≤ 2 ≤ transactionCount (run init submits)
  ∧ id (encryptedAt (run init submits) 2) = 2
  ∧ ¬ (1 ≤ 5 ≤ transactionCount (run init submits))
  ∧ encryptedTransactions (run init submits) !! 5 = None.
Proof.
  assert (1 ≤ 2 ≤ transactionCount (run init submits)) as Hin
    by (change (transactionCount (run init submits)) with 2; lia).
  assert (¬ (1 ≤ 5 ≤ transactionCount (run init submits))) as Hout
    by (change (transactionCount (run init submits)) with 2; lia).
  destruct (encrypted_records_dense submits 2) as (_ & H2 & _).
  destruct (encrypted_records_dense submits 5) as (_ & _ & H5).
  split; [exact Hin|]. split; [exact (proj2 (H2 Hin))|].
  split; [exact Hout | exact (proj1 (H5 Hout))].
Defined.

(** The first record is requested after a second one was submitted. *)
Lemma oracle_receives_submitted_handles_witness :
  submitEncryptedTransaction init 11 12 13 14 1000
  = Ok (step init (CallSubmit 11 12 13 14 1000),
        [TransactionSubmitted 1 1000])
  ∧ emitted
      (requestTransactionDecryption
         (run init [CallSubmit 11 12 13 14 1000; CallSubmit 21 22 23 24 1001])
         1 7)
    = [OracleRequest [11; 12; 13; 14]; DecryptionRequested 1].
Proof.
  assert (submitEncryptedTransaction init 11 12 13 14 1000
          = Ok (step init (CallSubmit 11 12 13 14 1000),
                [TransactionSubmitted 1 1000])) as Hsub
    by (vm_compute; reflexivity).
  split; [exact Hsub|].
  assert (isSettled
            (decryptedAt
               (run (step init (CallSubmit 11 12 13 14 1000))
                  [CallSubmit 21 22 23 24 1001])
               (transactionCount (step init (CallSubmit 11 12 13 14 1000))))
          = false) as Hs by (vm_compute; reflexivity).
  pose proof (oracle_receives_submitted_handles
                init 11 12 13 14 1000 _ _ [CallSubmit 21 22 23 24 1001] 7
                Hsub Hs) as Hreq.
  change (forallb FHE_isAllowed [11; 12; 13; 14]) with true in Hreq.
  change (transactionCount (step init (CallSubmit 11 12 13 14 1000)))
    with 1 in Hreq.
  change (run init [CallSubmit 11 12 13 14 1000; CallSubmit 21 22 23 24 1001])
    with (run (step init (CallSubmit 11 12 13 14 1000))
            [CallSubmit 21 22 23 24 1001]).
  rewrite Hreq. reflexivity.
Defined.

(** Token 7 of the run names record 1, submitted with the handles 11 to
    14. *)
Lemma pending_requests_name_permitted_records_witness :
  requestToTransactionId (run init submits) !! 7 = Some 1
  ∧ forallb FHE_isAllowed (recordCiphertexts (run init submits) 1) = true.
Proof.
  assert (requestToTransactionId (run init submits) !! 7 = Some 1) as Hlook
    by (vm_compute; reflexivity).
  split; [exact Hlook|].
  exact (proj1 (pending_requests_name_permitted_records submits 7 1 Hlook)).
Defined.

(** A payload of two strings under a valid token and proof. *)
Lemma callback_success_criterion_witness :
  requestAt requested 7 ≠ 0
  ∧ isSettled (decryptedAt requested (requestAt requested 7)) = false
  ∧ FHE_checkSignatures 7 "alice,bob" "ok" = true
  ∧ abi_decode "alice,bob" = Some ["alice"; "bob"]
  ∧ decryptTransaction requested 7 "alice,bob" "ok" = Revert IndexOutOfBounds
  ∧ succeeds (decryptTransaction requested 7 payload "ok") = true.
Proof.
  assert (requestAt requested 7 ≠ 0) as Hid by (vm_compute; discriminate).
  assert (isSettled (decryptedAt requested (requestAt requested 7)) = false)
    as Hs by (vm_compute; reflexivity).
  assert (FHE_checkSignatures 7 "alice,bob" "ok" = true) as Hp
    by (vm_compute; reflexivity).
  assert (abi_decode "alice,bob" = Some ["alice"; "bob"]) as Hd
    by (vm_compute; reflexivity).
  split; [exact Hid|]. split; [exact Hs|]. split; [exact Hp|].
  split; [exact Hd|]. split.
  - destruct (callback_success_criterion requested 7 "alice,bob" "ok")
      as [_ Hbad].
    destruct (Hbad Hid Hs Hp) as (_ & Hshort & _).
    apply (Hshort ["alice"; "bob"] Hd). simpl. lia.
  - apply (proj1 (callback_success_criterion requested 7 payload "ok")).
    split; [exact Hid|]. split; [exact Hs|]. split; [vm_compute; reflexivity|].
    exists ["alice"; "bob"; "10"; "500"], "alice".
    split; [vm_compute; reflexivity|]. split; [simpl; lia|].
    split; vm_compute; reflexivity.
Defined.

(** The settlement of record 1 as the getter shows it. *)
Lemma settlement_writes_projection_witness :
  decryptTransaction requested 7 payload "ok"
  = Ok (settled, [TransactionDecrypted 1])
  ∧ getDecryptedTransaction settled 1 = ("alice", "bob", "10", "500", true).
Proof.
  assert (decryptTransaction requested 7 payload "ok"
          = Ok (settled, [TransactionDecrypted 1])) as Hok
    by (vm_compute; reflexivity).
  split; [exact Hok|].
  destruct (settlement_writes_projection _ _ _ _ _ _ Hok)
    as (r0 & r1 & r2 & r3 & rest & Hd & Hget & _).
  assert (abi_decode payload = Some ["alice"; "bob"; "10"; "500"]) as Hd'
    by (vm_compute; reflexivity).
  rewrite Hd' in Hd. injection Hd as <- <- <- <- <-. exact Hget.
Defined.

(** Token 7 still names record 1 after its callback and a further
    request under token 8. *)
Lemma pending_entries_persist_witness :
  tokenUnused 7 [CallDecrypt 7 payload "ok"; CallRequest 1 8]
  ∧ requestToTransactionId
      (run requested [CallDecrypt 7 payload "ok"; CallRequest 1 8]) !! 7
    = Some 1.
Proof.
  assert (tokenUnused 7 [CallDecrypt 7 payload "ok"; CallRequest 1 8])
    as Hun by (repeat constructor; discriminate).
  split; [exact Hun|].
  rewrite (proj2 (pending_entries_persist requested _ 7) Hun).
  vm_compute. reflexivity.
Defined.

(** Record 1, settled, is requested and answered once more. *)
Lemma existing_record_settlement_final_witness :
  1 ≤ 1 ≤ transactionCount settled
  ∧ isSettled (decryptedAt settled 1) = true
  ∧ getDecryptedTransaction
      (run settled [CallRequest 1 8; CallDecrypt 7 payload "ok"]) 1
    = getDecryptedTransaction settled 1.
Proof.
  assert (1 ≤ 1 ≤ transactionCount settled) as Hex
    by (change (transactionCount settled) with 1; lia).
  assert (isSettled (decryptedAt settled 1) = true) as Hs
    by (vm_compute; reflexivity).
  split; [exact Hex|]. split; [exact Hs|].
  exact (proj1 (existing_record_settlement_final settled _ 1 Hex Hs)).
Defined.

(** Record 2 of the run is submitted and not settled. *)
Lemma unsettled_projection_is_empty_witness :
  isSettled (decryptedAt (run init submits) 2) = false
  ∧ getDecryptedTransaction (run init submits) 2 = ("", "", "", "", false).
Proof.
  assert (isSettled (decryptedAt (run init submits) 2) = false) as Hs
    by (vm_compute; reflexivity).
  split; [exact Hs|]. exact (unsettled_projection_is_empty submits 2 Hs).
Defined.

(** Record 3 of the market run was settled for "alice". *)
Lemma settled_projection_provenance_witness :
  isSettled (decryptedAt (run init market) 3) = true
  ∧ sellerId (decryptedAt (run init market) 3) ∈ sellerList (run init market)
  ∧ knownSeller (run init market)
      (sellerId (decryptedAt (run init market) 3)) = true.
Proof.
  assert (isSettled (decryptedAt (run init market) 3) = true) as Hs
    by (vm_compute; reflexivity).
  split; [exact Hs|]. exact (proj2 (settled_projection_provenance market 3 Hs)).
Defined.

(** In the market run "alice" has two settlements and "zoe" none. *)
Lemma accumulator_counts_settlements_witness :
  "alice" ∈ sellerList (run init market)
  ∧ FHE_plain (getEncryptedEnergyBySeller (run init market) "alice")
    = Z.of_nat (settledCount init market "alice") mod 2 ^ 32
  ∧ settledCount init market "alice" = 2%nat
  ∧ ("zoe" ∉ sellerList (run init market))
  ∧ getEncryptedEnergyBySeller (run init market) "zoe" = uninitialized.
Proof.
  assert ("alice" ∈ sellerList (run init market)) as Hin
    by (apply (bool_decide_unpack _); vm_compute; exact I).
  assert ("zoe" ∉ sellerList (run init market)) as Hout
    by (apply (bool_decide_unpack _); vm_compute; exact I).
  destruct (accumulator_counts_settlements market "alice") as [Hknown _].
  destruct (accumulator_counts_settlements market "zoe") as [_ Hunknown].
  split; [exact Hin|]. split; [exact (proj1 (Hknown Hin))|].
  split; [vm_compute; reflexivity|].
  split; [exact Hout | exact (proj1 (Hunknown Hout))].
Defined.

(** With two requests outstanding for record 1, the answer under token 7
    closes the record for token 8, also after a second record was
    submitted. *)
Lemma first_callback_wins_witness :
  decryptTransaction (run init twiceCalls) 7 payload "ok"
  = Ok (step twice (CallDecrypt 7 payload "ok"), [TransactionDecrypted 1])
  ∧ requestAt
      (run (step twice (CallDecrypt 7 payload "ok"))
         [CallSubmit 21 22 23 24 1001]) 8
    = requestAt (run init twiceCalls) 7
  ∧ decryptTransaction
      (run (step twice (CallDecrypt 7 payload "ok"))
         [CallSubmit 21 22 23 24 1001]) 8 payload "ok"
    = Revert AlreadySettled.
Proof.
  assert (decryptTransaction (run init twiceCalls) 7 payload "ok"
          = Ok (step twice (CallDecrypt 7 payload "ok"),
                [TransactionDecrypted 1])) as Hok
    by (vm_compute; reflexivity).
  assert (requestAt
            (run (step twice (CallDecrypt 7 payload "ok"))
               [CallSubmit 21 22 23 24 1001]) 8
          = requestAt (run init twiceCalls) 7) as Hsame
    by (vm_compute; reflexivity).
  split; [exact Hok|]. split; [exact Hsame|].
  exact (proj1 (first_callback_wins _ _ _ _ _ _ Hok
                  [CallSubmit 21 22 23 24 1001]) 8 payload "ok" Hsame).
Defined.

(** The lifecycle on a fresh contract. *)
Lemma lifecycle_settles_witness :
  0 ≤ transactionCount init < uint256_max
  ∧ forallb FHE_isAllowed [11; 12; 13; 14] = true
  ∧ FHE_checkSignatures 7 payload "ok" = true
  ∧ abi_decode payload = Some ["alice"; "bob"; "10"; "500"]
  ∧ accumulatorUsable init "alice" = true
  ∧ getDecryptedTransaction
      (run init [CallSubmit 11 12 13 14 1000; CallRequest 1 7;
                 CallDecrypt 7 payload "ok"]) 1
    = ("alice", "bob", "10", "500", true).
Proof.
  assert (0 ≤ transactionCount init < uint256_max) as Hcnt
    by (split; [vm_compute; discriminate | vm_compute; reflexivity]).
  assert (forallb FHE_isAllowed [11; 12; 13; 14] = true) as Hacl
    by (vm_compute; reflexivity).
  assert (FHE_checkSignatures 7 payload "ok" = true) as Hp
    by (vm_compute; reflexivity).
  assert (abi_decode payload = Some ["alice"; "bob"; "10"; "500"]) as Hd
    by (vm_compute; reflexivity).
  assert (accumulatorUsable init "alice" = true) as Huse
    by (vm_compute; reflexivity).
  split; [exact Hcnt|]. split; [exact Hacl|]. split; [exact Hp|].
  split; [exact Hd|]. split; [exact Huse|].
  destruct (lifecycle_settles init 11 12 13 14 1000 7 payload "ok"
              "alice" "bob" "10" "500" [] Hcnt Hacl Hp Hd Huse)
    as (_ & _ & Hget & _).
  exact Hget.
Defined.

End FurtherConcrete.
